(** * io-lib: the database session manager of package [dbio]

    A shallow embedding of the Go package [dbio] (files [dbio.go],
    [utility.go] and the logger) and the properties its specification
    states about it.

    Go values are modelled as follows.
    - [string] is a byte sequence, so Rocq's [string] (a list of 8-bit
      characters) with [String.length] for [len].
    - [int] is a 64-bit signed integer; the only arithmetic in the package
      is [size - len(a)] below a comparison, which we write over [Z].
    - A run-time panic (slice bound out of range, nil dereference) is an
      explicit outcome, never an unspecified value. *)

From Stdlib Require Import ZArith String Ascii Strings.Byte List Bool Lia.
From stdpp Require Import base gmap strings list.

Local Open Scope Z_scope.

(** ** utility.go *)

Module Utility.

(** Outcome of a pure Go expression that may panic. *)
Inductive go (A : Type) : Type :=
| Val (a : A)
| Panics (msg : string).
Arguments Val {A} a.
Arguments Panics {A} msg.

(** [len(s)] as a Go [int]. *)
Definition len (s : string) : Z := Z.of_nat (String.length s).

(** The slice expression [s[:hi]] on a string: in range when
    [0 <= hi <= len(s)], a run-time panic otherwise. *)
Definition slice_to (s : string) (hi : Z) : go string :=
  if (0 <=? hi) && (hi <=? len s)
  then Val (String.substring 0 (Z.to_nat hi) s)
  else Panics "slice bounds out of range".

(** [func ZeroFill(a string, size int) string] *)
Definition ZeroFill (a : string) (size : Z) : go string :=
  let num := len a in
  if num >=? size then Val a
  else
    match slice_to "0000000" (size - num) with
    | Val z => Val (z +:+ a)
    | Panics m => Panics m
    end.

(** [n] zero characters. *)
Definition zeros (n : nat) : string := string_of_list_ascii (repeat "0"%char n).

End Utility.

(** ** The world the package runs in

    [dbio.go] is input/output code: it creates and removes a scratch file,
    copies standard input into it, talks to an SQL engine through
    [database/sql], and copies the file to standard output.  The world
    below is the part of the process state those calls can observe or
    change; every library call of the source is a state transformer on
    it. *)

Abbreviation bytes := (list Byte.byte).

(** A Go [error] is modelled by its message; [nil] is [None]. *)
Abbreviation error := string.

(** [*sql.DB]: a pointer, so [option]; [None] is the nil pointer. *)
Record sqlDB := { db_id : nat; dsn : string }.

(** [*os.File] for the three standard streams. *)
Inductive osFile := os_Stdin | os_Stdout | os_Stderr.

(** The package passes exactly one [io.Reader] ([os.Stdin]) and one
    [io.Writer] ([os.Stdout]). *)
Inductive ioReader := StdinReader.
Inductive ioWriter := StdoutWriter.

Record World := {
  fs : gmap string bytes;        (* files of the scratch directory *)
  next_db : nat;                 (* next fresh handle identity *)
  open_dbs : gset nat;           (* handles not yet closed *)
  stdin_data : bytes;            (* bytes standard input still holds *)
  stdin_err : option error;      (* a read error ending the input, if any *)
  stdin_reads : nat;             (* how often the input has been read *)
  stdout : bytes;                (* bytes written to standard output *)
  stdout_room : option nat;      (* [Some n]: writes fail after [n] bytes *)
  stderr : list string;          (* writes made to standard error *)
  exec_log : list (nat * string * list string)
                                 (* every statement handed to [Exec] *)
}.

Definition set_fs (f : gmap string bytes → gmap string bytes) (w : World) :=
  {| fs := f (fs w); next_db := next_db w; open_dbs := open_dbs w;
     stdin_data := stdin_data w; stdin_err := stdin_err w;
     stdin_reads := stdin_reads w; stdout := stdout w;
     stdout_room := stdout_room w; stderr := stderr w;
     exec_log := exec_log w |}.

Definition set_dbs (n : nat) (s : gset nat) (w : World) :=
  {| fs := fs w; next_db := n; open_dbs := s;
     stdin_data := stdin_data w; stdin_err := stdin_err w;
     stdin_reads := stdin_reads w; stdout := stdout w;
     stdout_room := stdout_room w; stderr := stderr w;
     exec_log := exec_log w |}.

Definition set_stdin (d : bytes) (n : nat) (w : World) :=
  {| fs := fs w; next_db := next_db w; open_dbs := open_dbs w;
     stdin_data := d; stdin_err := stdin_err w;
     stdin_reads := n; stdout := stdout w;
     stdout_room := stdout_room w; stderr := stderr w;
     exec_log := exec_log w |}.

Definition set_stdout (o : bytes) (r : option nat) (w : World) :=
  {| fs := fs w; next_db := next_db w; open_dbs := open_dbs w;
     stdin_data := stdin_data w; stdin_err := stdin_err w;
     stdin_reads := stdin_reads w; stdout := o;
     stdout_room := r; stderr := stderr w;
     exec_log := exec_log w |}.

Definition set_stderr (e : list string) (w : World) :=
  {| fs := fs w; next_db := next_db w; open_dbs := open_dbs w;
     stdin_data := stdin_data w; stdin_err := stdin_err w;
     stdin_reads := stdin_reads w; stdout := stdout w;
     stdout_room := stdout_room w; stderr := e;
     exec_log := exec_log w |}.

Definition set_exec_log (l : list (nat * string * list string)) (w : World) :=
  {| fs := fs w; next_db := next_db w; open_dbs := open_dbs w;
     stdin_data := stdin_data w; stdin_err := stdin_err w;
     stdin_reads := stdin_reads w; stdout := stdout w;
     stdout_room := stdout_room w; stderr := stderr w;
     exec_log := l |}.

(** What the package cannot decide itself: the operating system's answers
    and the SQL engine behind [database/sql] (here the sqlite3 driver).
    The engine is a parameter: it acts on the bytes of the backing store
    and may fail. *)
Record Env := {
  stat : osFile → option Z;      (* [f.Stat()]: mode bits, [None] on error *)
  temp_dir : string;             (* [os.TempDir()] *)
  temp_rand : string;            (* the random part [os.CreateTemp] picks *)
  create_temp_err : option error;
  os_open_err : option error;
  sql_open_err : option error;
  eng_ping : bytes → option error * bytes;
  eng_exec : string → list string → bytes → option error * bytes;
  eng_close : bytes → option error * bytes;
  fmt_q : string → string        (* the [%q] verb of package [fmt] *)
}.

(** Outcome of running a piece of Go code: it returns, it panics (deferred
    calls still run), or the process has exited (nothing runs after). *)
Inductive Res (A : Type) : Type :=
| Ret (a : A) (w : World)
| Panic (msg : string) (w : World)
| Exit (code : Z) (w : World).
Arguments Ret {A} a w.
Arguments Panic {A} msg w.
Arguments Exit {A} code w.

Definition M (A : Type) : Type := World → Res A.

Definition ret {A} (a : A) : M A := fun w => Ret a w.

Definition bind {A B} (m : M A) (k : A → M B) : M B :=
  fun w =>
    match m w with
    | Ret a w' => k a w'
    | Panic msg w' => Panic msg w'
    | Exit c w' => Exit c w'
    end.

Notation "'do' x <- m ; k" := (bind m (fun x => k))
  (at level 10, x pattern, m at level 100, k at level 200).
Notation "'run' m ; k" := (bind m (fun _ => k))
  (at level 10, m at level 100, k at level 200).

(** The world an outcome leaves behind. *)
Definition world_of {A} (r : Res A) : World :=
  match r with Ret _ w | Panic _ w | Exit _ w => w end.

(** [defer d] at the head of a function body: [d] runs when the body
    returns or panics, its result is dropped; it does not run when the
    process exits. *)
Definition defer {A B} (d : M B) (body : M A) : M A :=
  fun w =>
    match body w with
    | Ret a w' =>
        match d w' with
        | Ret _ w'' => Ret a w''
        | Panic msg w'' => Panic msg w''
        | Exit c w'' => Exit c w''
        end
    | Panic msg w' =>
        match d w' with
        | Ret _ w'' => Panic msg w''
        | Panic msg' w'' => Panic msg' w''
        | Exit c w'' => Exit c w''
        end
    | Exit c w' => Exit c w'
    end.

Definition get {A} (f : World → A) : M A := fun w => Ret (f w) w.
Definition modify (f : World → World) : M unit := fun w => Ret tt (f w).
Definition panic {A} (msg : string) : M A := fun w => Panic msg w.

(** ** The library calls the package makes *)

Section Library.
Context (E : Env).

(** [fs.ModeCharDevice], bit 21 of the 32-bit file mode. *)
Definition ModeCharDevice : Z := Z.shiftl 1 21.

(** [fmt.Fprintln(os.Stderr, s)]: one write of [s] and a newline. *)
Definition newline : string := String (ascii_of_nat 10) EmptyString.

Definition Fprintln_stderr (s : string) : M unit :=
  modify (fun w => set_stderr (stderr w ++ [s +:+ newline]) w).

(** [fmt.Fprintf(os.Stderr, ...)] with the formatted text [s]. *)
Definition Fprintf_stderr (s : string) : M unit :=
  modify (fun w => set_stderr (stderr w ++ [s]) w).

(** The name [os.CreateTemp] builds from a pattern: the last [*] is
    replaced by the random string. *)
Fixpoint has_star (s : string) : bool :=
  match s with
  | EmptyString => false
  | String c r => Ascii.eqb c "*" || has_star r
  end.

Fixpoint fill_pattern (pattern rnd : string) : string :=
  match pattern with
  | EmptyString => rnd
  | String c r =>
      if Ascii.eqb c "*" && negb (has_star r) then rnd +:+ r
      else String c (fill_pattern r rnd)
  end.

(** [os.CreateTemp(dir, pattern)]: a new, empty file whose name did not
    exist before (the file is created exclusively; a clash is an error).
    The file object is modelled by its name. *)
Definition os_CreateTemp (dir pattern : string) : M (string * option error) :=
  match create_temp_err E with
  | Some e => ret (EmptyString, Some e)
  | None =>
      let d := if String.eqb dir "" then temp_dir E else dir in
      let name := d +:+ "/" +:+ fill_pattern pattern (temp_rand E) in
      do exists_ <- get (fun w => bool_decide (is_Some (fs w !! name)));
      if exists_ then ret (EmptyString, Some "file exists")
      else run modify (set_fs (insert name [])); ret (name, None)
  end.

(** [f.Close()] on an [*os.File]: nothing the model observes. *)
Definition os_File_Close (f : string) : M (option error) := ret None.

(** [os.Remove(name)]. *)
Definition os_Remove (name : string) : M (option error) :=
  do exists_ <- get (fun w => bool_decide (is_Some (fs w !! name)));
  if exists_ then run modify (set_fs (delete name)); ret None
  else ret (Some "no such file or directory").

(** [os.Open(name)] for reading. *)
Definition os_Open (name : string) : M (string * option error) :=
  match os_open_err E with
  | Some e => ret (EmptyString, Some e)
  | None =>
      do exists_ <- get (fun w => bool_decide (is_Some (fs w !! name)));
      if exists_ then ret (name, None)
      else ret (EmptyString, Some "no such file or directory")
  end.

(** [io.Copy(tmpFile, r)]: everything the reader still holds is appended to
    the file; the result is the reader's error, if it ends in one
    (end of input is not an error). *)
Definition io_Copy_in (dst : string) (r : ioReader) : M (option error) :=
  match r with
  | StdinReader =>
      do data <- get stdin_data;
      run modify (set_fs (fun m => <[dst := default [] (m !! dst) ++ data]> m));
      run modify (fun w => set_stdin [] (S (stdin_reads w)) w);
      get stdin_err
  end.

(** [io.Copy(w, f)]: the file's bytes are written to the writer; a writer
    with room for fewer bytes takes what fits and the copy fails. *)
Definition io_Copy_out (w : ioWriter) (f : string) : M (option error) :=
  match w with
  | StdoutWriter =>
      do data <- get (fun w => default [] (fs w !! f));
      do room <- get stdout_room;
      match room with
      | None =>
          run modify (fun w => set_stdout (stdout w ++ data) None w);
          ret None
      | Some n =>
          if (length data <=? n)%nat then
            run modify (fun w =>
                  set_stdout (stdout w ++ data) (Some (n - length data)%nat) w);
            ret None
          else
            run modify (fun w =>
                  set_stdout (stdout w ++ take n data) (Some 0%nat) w);
            ret (Some "short write")
      end
  end.

(** The engine acts on the backing store of a handle; sqlite creates the
    store when it is missing. *)
Definition on_store (name : string) (f : bytes → option error * bytes)
  : M (option error) :=
  do b <- get (fun w => default [] (fs w !! name));
  let '(e, b') := f b in
  run modify (set_fs (insert name b'));
  ret e.

Definition is_open (d : sqlDB) : M bool :=
  get (fun w => bool_decide (db_id d ∈ open_dbs w)).

(** [sql.Open("sqlite3", dsn)]. *)
Definition sql_Open (driver dsn : string) : M (option sqlDB * option error) :=
  match sql_open_err E with
  | Some e => ret (None, Some e)
  | None =>
      do n <- get next_db;
      run modify (fun w => set_dbs (S n) ({[ n ]} ∪ open_dbs w) w);
      ret (Some {| db_id := n; dsn := dsn |}, None)
  end.

(** [db.Ping()]. *)
Definition db_Ping (db : option sqlDB) : M (option error) :=
  match db with
  | None => panic "nil pointer dereference"
  | Some d =>
      do o <- is_open d;
      if o then on_store (dsn d) (eng_ping E)
      else ret (Some "sql: database is closed")
  end.

(** [db.Exec(stmt, args...)]; the first result is dropped by every
    caller. *)
Definition db_Exec (db : option sqlDB) (stmt : string) (args : list string)
  : M (option error) :=
  match db with
  | None => panic "nil pointer dereference"
  | Some d =>
      run modify (fun w => set_exec_log (exec_log w ++ [(db_id d, stmt, args)]) w);
      do o <- is_open d;
      if o then on_store (dsn d) (eng_exec E stmt args)
      else ret (Some "sql: database is closed")
  end.

(** [db.Close()]: closing twice is allowed and does nothing. *)
Definition db_Close (db : option sqlDB) : M (option error) :=
  match db with
  | None => panic "nil pointer dereference"
  | Some d =>
      do o <- is_open d;
      if o then
        run modify (fun w => set_dbs (next_db w) (open_dbs w ∖ {[ db_id d ]}) w);
        do present <- get (fun w => bool_decide (is_Some (fs w !! dsn d)));
        if present then on_store (dsn d) (eng_close E) else ret None
      else ret None
  end.

(** [os.Exit(code)]. *)
Definition os_Exit {A} (code : Z) : M A := fun w => Exit code w.

End Library.

(** ** dbio.go *)

Module Schema.

(** The statements of [createSchema], byte for byte. *)

Definition pragma_temp_store : string :=
  "PRAGMA temp_store = MEMORY".

Definition create_ident : string :=
  "CREATE TABLE IF NOT EXISTS ident (
			dataset_id INTEGER PRIMARY KEY AUTOINCREMENT,
			bible_id TEXT NOT NULL,
			audio_OT_id TEXT NOT NULL,
			audio_NT_id TEXT NOT NULL,
			text_OT_id TEXT NOT NULL,
			text_NT_id TEXT NOT NULL,
			text_source TEXT NOT NULL,
			language_iso TEXT NOT NULL,
			asr_language_iso TEXT NOT NULL DEFAULT '',
			version_code TEXT NOT NULL,
			language_id INTEGER NOT NULL,
			rolv_id INTEGER NOT NULL,
			alphabet TEXT NOT NULL,
			language_name TEXT NOT NULL,
			version_name TEXT NOT NULL) STRICT".

Definition create_ident_bible_idx : string :=
  "CREATE UNIQUE INDEX IF NOT EXISTS ident_bible_idx ON ident (bible_id)".

Definition create_scripts : string :=
  "CREATE TABLE IF NOT EXISTS scripts (
			script_id INTEGER PRIMARY KEY AUTOINCREMENT,
			dataset_id INTEGER NOT NULL,
			book_id TEXT NOT NULL,
			chapter_num INTEGER NOT NULL,
			chapter_end INTEGER NOT NULL,
			verse_str TEXT NOT NULL,
			verse_end TEXT NOT NULL,
			verse_num INTEGER NOT NULL,
			audio_file TEXT NOT NULL,
			script_num TEXT NOT NULL,
			usfm_style TEXT NOT NULL DEFAULT '',
			person TEXT NOT NULL DEFAULT '',
			actor TEXT NOT NULL DEFAULT '',
			script_text TEXT NOT NULL,
			uroman TEXT NOT NULL DEFAULT '',
			script_begin_ts REAL NOT NULL DEFAULT 0.0,
			script_end_ts REAL NOT NULL DEFAULT 0.0,
			fa_score REAL NOT NULL DEFAULT 0.0,
			FOREIGN KEY(dataset_id) REFERENCES ident(dataset_id)) STRICT".

Definition create_scripts_idx : string :=
  "CREATE UNIQUE INDEX IF NOT EXISTS scripts_idx
			ON scripts (book_id, chapter_num, verse_str)".

Definition create_script_num_idx : string :=
  "CREATE INDEX IF NOT EXISTS script_num_idx ON scripts (script_num)".

Definition create_scripts_file_idx : string :=
  "CREATE INDEX IF NOT EXISTS scripts_file_idx ON scripts (audio_file)".

Definition create_words : string :=
  "CREATE TABLE IF NOT EXISTS words (
			word_id INTEGER PRIMARY KEY AUTOINCREMENT,
			script_id INTEGER NOT NULL,
			word_seq INTEGER NOT NULL,
			verse_num INTEGER NOT NULL,
			ttype TEXT NOT NULL DEFAULT 'W',
			word TEXT NOT NULL,
			uroman TEXT NOT NULL DEFAULT '',
			word_begin_ts REAL NOT NULL DEFAULT 0.0,
			word_end_ts REAL NOT NULL DEFAULT 0.0,
			fa_score REAL NOT NULL DEFAULT 0.0,
			word_enc TEXT NOT NULL DEFAULT '',
			src_word_enc TEXT NOT NULL DEFAULT '',
			word_multi_enc TEXT NOT NULL DEFAULT '',
			src_word_multi_enc TEXT NOT NULL DEFAULT '',
			FOREIGN KEY(script_id) REFERENCES scripts(script_id)) STRICT".

Definition create_words_idx : string :=
  "CREATE UNIQUE INDEX IF NOT EXISTS words_idx
			ON words (script_id, word_seq)".

Definition create_log : string :=
  "CREATE TABLE IF NOT EXISTS log (
			log_id INTEGER PRIMARY KEY AUTOINCREMENT,
			component TEXT NOT NULL,
			level TEXT NOT NULL,
			message TEXT NOT NULL,
			created_at TEXT NOT NULL DEFAULT (datetime('now'))) STRICT".

Definition stmts : list string :=
  [ pragma_temp_store; create_ident; create_ident_bible_idx; create_scripts;
    create_scripts_idx; create_script_num_idx; create_scripts_file_idx;
    create_words; create_words_idx; create_log ].

End Schema.

Section Dbio.
Context (E : Env).

(** [func isTerminal(f *os.File) bool] *)
Definition isTerminal (f : osFile) : bool :=
  match stat E f with
  | None => false
  | Some mode => negb (Z.land mode ModeCharDevice =? 0)
  end.

(** [func readDB(r io.Reader, terminal bool)], returning a [*sql.DB], a
    [string] and an [error]. *)
Definition readDB (r : ioReader) (terminal : bool)
  : M (option sqlDB * string * option error) :=
  do (tmpFile, err) <- os_CreateTemp E "" "arty-*.db";
  match err with
  | Some e => ret (None, EmptyString, Some ("creating temp db: " +:+ e))
  | None =>
      let tmpPath := tmpFile in
      let rest : M (option sqlDB * string * option error) :=
        run os_File_Close tmpFile;
        do (db, err) <- sql_Open E "sqlite3" tmpPath;
        match err with
        | Some e =>
            run os_Remove tmpPath;
            ret (None, EmptyString, Some ("opening db: " +:+ e))
        | None =>
            do err <- db_Ping E db;
            match err with
            | Some e =>
                run db_Close E db;
                run os_Remove tmpPath;
                ret (None, EmptyString, Some ("pinging db: " +:+ e))
            | None => ret (db, tmpPath, None)
            end
        end in
      if negb terminal then
        do err <- io_Copy_in tmpFile r;
        match err with
        | Some e =>
            run os_File_Close tmpFile;
            run os_Remove tmpPath;
            ret (None, EmptyString, Some ("reading db from stdin: " +:+ e))
        | None => rest
        end
      else rest
  end.

(** [stmt[:min(len(stmt), 60)]] *)
Definition head60 (stmt : string) : string :=
  String.substring 0 (Z.to_nat (Z.min (Utility.len stmt) 60)) stmt.

(** The loop of [createSchema] over a statement list. *)
Fixpoint exec_each (db : option sqlDB) (l : list string) : M (option error) :=
  match l with
  | [] => ret None
  | stmt :: rest =>
      do err <- db_Exec E db stmt [];
      match err with
      | Some e =>
          ret (Some ("schema exec " +:+ fmt_q E (head60 stmt) +:+ ": " +:+ e))
      | None => exec_each db rest
      end
  end.

(** [func createSchema(db *sql.DB) error] *)
Definition createSchema (db : option sqlDB) : M (option error) :=
  exec_each db Schema.stmts.

(** [func OpenDB()], returning a [*sql.DB], a [string] and an [error]. *)
Definition OpenDB : M (option sqlDB * string * option error) :=
  do (db, dbPath, err) <- readDB StdinReader (isTerminal os_Stdin);
  match err with
  | Some e => ret (None, EmptyString, Some e)
  | None =>
      do err <- createSchema db;
      match err with
      | Some e =>
          run db_Close E db;
          run os_Remove dbPath;
          ret (None, EmptyString, Some e)
      | None => ret (db, dbPath, None)
      end
  end.

(** [func writeDB(db *sql.DB, dbPath string, w io.Writer) error] *)
Definition writeDB (db : option sqlDB) (dbPath : string) (w : ioWriter)
  : M (option error) :=
  do err <- db_Close E db;
  match err with
  | Some e => ret (Some ("closing db before write: " +:+ e))
  | None =>
      do (f, err) <- os_Open E dbPath;
      match err with
      | Some e => ret (Some ("opening db file for output: " +:+ e))
      | None =>
          defer (os_File_Close f)
            (do err <- io_Copy_out w f;
             match err with
             | Some e => ret (Some ("writing db to stdout: " +:+ e))
             | None => ret None
             end)
      end
  end.

(** [func OutputDB(db *sql.DB, dbPath string) error] *)
Definition OutputDB (db : option sqlDB) (dbPath : string) : M (option error) :=
  defer (os_Remove dbPath)
    (if isTerminal os_Stdout then
       run Fprintln_stderr "stdout is a terminal, skipping database output";
       run Fprintln_stderr
             "pipe to a file or another component to capture the database";
       run db_Close E db;
       ret None
     else writeDB db dbPath StdoutWriter).

(** [func CloseDB(db *sql.DB, dbPath string)] *)
Definition CloseDB (db : option sqlDB) (dbPath : string) : M unit :=
  run db_Close E db;
  run os_Remove dbPath;
  ret tt.

End Dbio.

(** ** The logger *)

Section Logger.
Context (E : Env).
(** A Go [any] value and [fmt.Sprint] on it. *)
Context {any : Type} (Sprint : any → string).

Record Logger := { db : option sqlDB; component : string }.

(** [func NewLogger(db *sql.DB, component string) *Logger] *)
Definition NewLogger (db : option sqlDB) (component : string) : Logger :=
  {| db := db; component := component |}.

(** [strings.Join(parts, sep)] *)
Fixpoint strings_Join (parts : list string) (sep : string) : string :=
  match parts with
  | [] => EmptyString
  | [p] => p
  | p :: rest => p +:+ sep +:+ strings_Join rest sep
  end.

(** [func joinArgs(args []any) string] *)
Definition joinArgs (args : list any) : string :=
  strings_Join (map Sprint args) " ".

(** [func (l Logger) insertLog(level string, message string)] *)
Definition insertLog (l : Logger) (level message : string) : M unit :=
  match db l with
  | None => ret tt
  | Some _ =>
      do err <- db_Exec E (db l)
                  "INSERT INTO log (component, level, message) VALUES (?, ?, ?)"
                  [component l; level; message];
      match err with
      | Some e =>
          Fprintf_stderr ("WARN [" +:+ component l
                          +:+ "]: failed to write log to db: " +:+ e +:+ newline)
      | None => ret tt
      end
  end.

(** [func (l Logger) Info(args ...any)] *)
Definition Info (l : Logger) (args : list any) : M unit :=
  let msg := joinArgs args in
  insertLog l "INFO" msg.

(** [func (l Logger) Warn(args ...any)] *)
Definition Warn (l : Logger) (args : list any) : M unit :=
  let msg := joinArgs args in
  insertLog l "WARN" msg.

(** [func (l Logger) Error(args ...any)] *)
Definition Error (l : Logger) (args : list any) : M unit :=
  let msg := joinArgs args in
  run insertLog l "ERROR" msg;
  Fprintf_stderr ("ERROR [" +:+ component l +:+ "]: " +:+ msg +:+ newline).

(** [func (l Logger) Fatal(args ...any)] *)
Definition Fatal (l : Logger) (args : list any) : M unit :=
  run Error l args;
  os_Exit 1.

End Logger.

(** ** Reading the statements

    What a statement defines and what it depends on is read off its text:
    the statement is cut into words at blanks, parentheses and commas. *)

Module Ddl.

Definition is_sep (c : ascii) : bool :=
  let n := nat_of_ascii c in
  (n =? 32)%nat || (n =? 9)%nat || (n =? 10)%nat || (n =? 13)%nat
  || Ascii.eqb c "(" || Ascii.eqb c ")" || Ascii.eqb c ",".

Definition flush (cur : string) (k : list string) : list string :=
  match cur with EmptyString => k | _ => cur :: k end.

Fixpoint words_from (cur s : string) : list string :=
  match s with
  | EmptyString => flush cur []
  | String c r =>
      if is_sep c then flush cur (words_from EmptyString r)
      else words_from (cur +:+ String c EmptyString) r
  end.

Definition words (s : string) : list string := words_from EmptyString s.

(** [strip pre l]: [l] without its leading words [pre], when it has them. *)
Fixpoint strip (pre l : list string) : option (list string) :=
  match pre, l with
  | [], _ => Some l
  | p :: pre', x :: l' => if String.eqb p x then strip pre' l' else None
  | _ :: _, [] => None
  end.

(** The tables named after a [REFERENCES] keyword. *)
Fixpoint referenced (l : list string) : list string :=
  match l with
  | kw :: ((t :: _) as rest) =>
      if String.eqb kw "REFERENCES" then t :: referenced rest
      else referenced rest
  | _ => []
  end.

Inductive stmt_kind :=
| Pragma (name : string)
| CreateTable (name : string) (parents : list string)
| CreateIndex (unique : bool) (name table : string)
| Other.

Definition index_of (unique : bool) (l : list string) : stmt_kind :=
  match l with
  | name :: on :: table :: _ =>
      if String.eqb on "ON" then CreateIndex unique name table else Other
  | _ => Other
  end.

(** The statement forms [createSchema] uses; everything else is [Other]. *)
Definition classify (s : string) : stmt_kind :=
  let l := words s in
  match strip ["PRAGMA"] l with
  | Some (name :: _) => Pragma name
  | Some [] => Other
  | None =>
  match strip ["CREATE"; "TABLE"; "IF"; "NOT"; "EXISTS"] l with
  | Some (name :: rest) => CreateTable name (referenced rest)
  | Some [] => Other
  | None =>
  match strip ["CREATE"; "UNIQUE"; "INDEX"; "IF"; "NOT"; "EXISTS"] l with
  | Some rest => index_of true rest
  | None =>
  match strip ["CREATE"; "INDEX"; "IF"; "NOT"; "EXISTS"] l with
  | Some rest => index_of false rest
  | None => Other
  end end end end.

(** A statement that only creates what does not exist yet, or sets the
    connection's [temp_store]. *)
Definition guarded (s : string) : bool :=
  match classify s with
  | Pragma name => String.eqb name "temp_store"
  | CreateTable _ _ | CreateIndex _ _ _ => true
  | Other => false
  end.

Definition is_table (k : stmt_kind) : bool :=
  match k with CreateTable _ _ => true | _ => false end.

Definition is_index (k : stmt_kind) : bool :=
  match k with CreateIndex _ _ _ => true | _ => false end.

Definition mem (x : string) (l : list string) : bool :=
  existsb (String.eqb x) l.

(** [ordered seen l]: every statement of [l] names only tables defined by
    [seen] or by an earlier statement of [l] (a table may name itself). *)
Fixpoint ordered (seen : list string) (l : list stmt_kind) : bool :=
  match l with
  | [] => true
  | CreateTable name parents :: r =>
      forallb (fun t => mem t (name :: seen)) parents && ordered (name :: seen) r
  | CreateIndex _ _ table :: r => mem table seen && ordered seen r
  | _ :: r => ordered seen r
  end.

End Ddl.

(** The statements run one after the other on the bytes of a store, as the
    engine alone sees them: the store after the last one, or nothing when
    one fails. *)
Fixpoint run_stmts (E : Env) (l : list string) (b : bytes) : option bytes :=
  match l with
  | [] => Some b
  | s :: r =>
      match eng_exec E s [] b with
      | (None, b') => run_stmts E r b'
      | (Some _, _) => None
      end
  end.

(** An engine honours [IF NOT EXISTS] when a guarded statement that has
    succeeded changes nothing if run again, and a guarded statement that
    changes nothing still changes nothing after another guarded statement
    has succeeded. *)
Definition noop (E : Env) (s : string) (b : bytes) : Prop :=
  eng_exec E s [] b = (None, b).

Record honours_if_not_exists (E : Env) : Prop := {
  absorbed : ∀ s b b',
    Ddl.guarded s = true → eng_exec E s [] b = (None, b') → noop E s b';
  stable : ∀ s t b b',
    Ddl.guarded s = true → Ddl.guarded t = true →
    noop E s b → eng_exec E t [] b = (None, b') → noop E s b'
}.

(** The name [readDB] gives the backing store. *)
Definition tmp_name (E : Env) : string :=
  temp_dir E +:+ "/" +:+ fill_pattern "arty-*.db" (temp_rand E).

(** The entries [createSchema] adds to the log of executed statements. *)
Definition logged (d : sqlDB) (l : list string)
  : list (nat * string * list string) :=
  map (fun s => (db_id d, s, [])) l.

(** ** A small engine to run the package on

    The package is written against [database/sql]; to evaluate it we need an
    engine.  This one keeps nothing but the catalog: the store is the list
    of the names of its tables and indices, one per line.  It implements the
    statement forms of [createSchema] the way sqlite does: a guarded
    [CREATE] of a name that exists changes nothing, an index needs its table,
    and the parent named by a foreign key is not looked up when the table is
    created. *)

Module Catalog.

#[global] Instance byte_eq_dec : EqDecision Byte.byte := Byte.byte_eq_dec.

Definition nl : Byte.byte := Byte.x0a.

Fixpoint lines_from (cur b : bytes) : list bytes :=
  match b with
  | [] => match cur with [] => [] | _ => [cur] end
  | x :: r =>
      if bool_decide (x = nl)
      then match cur with
           | [] => lines_from [] r
           | _ => cur :: lines_from [] r
           end
      else lines_from (cur ++ [x]) r
  end.

Definition entries (b : bytes) : list bytes := lines_from [] b.

Definition has (name : bytes) (b : bytes) : bool :=
  bool_decide (name ∈ entries b).

Definition valid_name (name : bytes) : bool :=
  bool_decide (name ≠ []) && bool_decide (nl ∉ name).

Definition add (name : bytes) (b : bytes) : bytes :=
  b ++ nl :: name ++ [nl].

Definition create (name : string) (needs : option string) (b : bytes)
  : option error * bytes :=
  let n := list_byte_of_string name in
  if negb (valid_name n) then (Some "unrecognized token", b)
  else if has n b then (None, b)
  else
    match needs with
    | Some t =>
        if has (list_byte_of_string t) b then (None, add n b)
        else (Some ("no such table: " +:+ t), b)
    | None => (None, add n b)
    end.

Definition exec (stmt : string) (args : list string) (b : bytes)
  : option error * bytes :=
  match Ddl.classify stmt with
  | Ddl.Pragma _ => (None, b)
  | Ddl.CreateTable name _ => create name None b
  | Ddl.CreateIndex _ name table => create name (Some table) b
  | Ddl.Other => (Some "syntax error", b)
  end.

(** File modes as [Stat] reports them: a pipe and a terminal. *)
Definition pipe_mode : Z := Z.shiftl 1 25 + 432.
Definition tty_mode : Z := Z.shiftl 1 26 + Z.shiftl 1 21 + 400.

(** The [%q] verb ([strconv.Quote]) on text made of printable ASCII,
    newlines, tabs and carriage returns, which is all the statements hold:
    the text between double quotes, with a backslash before a double quote
    or a backslash, and a backslash with [n], [t] or [r] for a newline,
    a tab or a carriage return. *)
Definition escape (c : ascii) : string :=
  let n := nat_of_ascii c in
  let backslash := ascii_of_nat 92 in
  if (n =? 34)%nat || (n =? 92)%nat then String backslash (String c EmptyString)
  else if (n =? 10)%nat then String backslash (String "n" EmptyString)
  else if (n =? 9)%nat then String backslash (String "t" EmptyString)
  else if (n =? 13)%nat then String backslash (String "r" EmptyString)
  else String c EmptyString.

Fixpoint escaped (s : string) : string :=
  match s with
  | EmptyString => EmptyString
  | String c r => escape c +:+ escaped r
  end.

Definition quote (s : string) : string :=
  let q := String (ascii_of_nat 34) EmptyString in q +:+ escaped s +:+ q.

(** An environment around the catalog engine; opening and closing a
    connection leave the store as it is. *)
Definition env (stdin_mode stdout_mode : Z)
    (ping : bytes → option error * bytes)
    (exec : string → list string → bytes → option error * bytes) : Env :=
  {| stat := fun f => match f with
                      | os_Stdin => Some stdin_mode
                      | os_Stdout => Some stdout_mode
                      | os_Stderr => None
                      end;
     temp_dir := "/tmp";
     temp_rand := "1694203507";
     create_temp_err := None;
     os_open_err := None;
     sql_open_err := None;
     eng_ping := ping;
     eng_exec := exec;
     eng_close := fun b => (None, b);
     fmt_q := quote |}.

Definition connect (b : bytes) : option error * bytes := (None, b).

Definition piped : Env := env pipe_mode pipe_mode connect exec.
Definition at_terminal : Env := env tty_mode tty_mode connect exec.

(** An engine that refuses to create table [scripts]. *)
Definition exec_no_scripts (stmt : string) (args : list string) (b : bytes)
  : option error * bytes :=
  if String.eqb stmt Schema.create_scripts then (Some "disk I/O error", b)
  else exec stmt args b.

Definition failing : Env := env pipe_mode pipe_mode connect exec_no_scripts.

(** An engine that cannot connect, and a driver that cannot be opened. *)
Definition no_connect (b : bytes) : option error * bytes :=
  (Some "unable to open database file", b).

Definition unreachable : Env := env pipe_mode pipe_mode no_connect exec.

Definition no_driver : Env :=
  {| stat := stat piped; temp_dir := temp_dir piped;
     temp_rand := temp_rand piped; create_temp_err := None;
     os_open_err := None; sql_open_err := Some "unknown driver";
     eng_ping := connect; eng_exec := exec; eng_close := eng_close piped;
     fmt_q := quote |}.

(** A process start: nothing in the scratch directory, [input] waiting on
    standard input, nothing written yet. *)
Definition start (input : bytes) : World :=
  {| fs := ∅; next_db := 0; open_dbs := ∅;
     stdin_data := input; stdin_err := None; stdin_reads := 0;
     stdout := []; stdout_room := None; stderr := []; exec_log := [] |}.

(** A process start whose standard input breaks after [input]. *)
Definition start_broken (input : bytes) : World :=
  {| fs := ∅; next_db := 0; open_dbs := ∅;
     stdin_data := input; stdin_err := Some "unexpected EOF";
     stdin_reads := 0;
     stdout := []; stdout_room := None; stderr := []; exec_log := [] |}.

(** A process start whose standard output takes [n] bytes and no more. *)
Definition start_narrow (input : bytes) (n : nat) : World :=
  {| fs := ∅; next_db := 0; open_dbs := ∅;
     stdin_data := input; stdin_err := None; stdin_reads := 0;
     stdout := []; stdout_room := Some n; stderr := []; exec_log := [] |}.

(** The backing store [readDB] creates in these environments, the handle
    it returns, and the world it leaves when [input] was piped in. *)
Definition store_path : string := "/tmp/arty-1694203507.db".
Definition handle : sqlDB := {| db_id := 0; dsn := store_path |}.
Definition opened (E : Env) (input : bytes) : World :=
  world_of (readDB E StdinReader false (start input)).

(** The store of a database that has the standard schema. *)
Definition with_schema : bytes :=
  default [] (run_stmts piped Schema.stmts []).

End Catalog.

(** ** What the bootstrap loop does to a store

    [run_until] follows the loop of [createSchema] on the bytes of the store
    alone: the failing statement with its error (if any), the store left
    behind, and the statements handed to the engine. *)

Fixpoint run_until (E : Env) (l : list string) (b : bytes)
  : option (string * error) * bytes * list string :=
  match l with
  | [] => (None, b, [])
  | s :: r =>
      match eng_exec E s [] b with
      | (Some e, b') => (Some (s, e), b', [s])
      | (None, b') =>
          let '(res, b'', done) := run_until E r b' in (res, b'', s :: done)
      end
  end.

(** The error [createSchema] returns for a failed statement. *)
Definition schema_error (E : Env) (r : option (string * error)) : option error :=
  match r with
  | None => None
  | Some (s, e) =>
      Some ("schema exec " +:+ fmt_q E (head60 s) +:+ ": " +:+ e)
  end.

(** The bytes of the store behind a handle. *)
Definition store (d : sqlDB) (w : World) : bytes := default [] (fs w !! dsn d).

(** The world after statements [done] went to the engine through handle
    [d] and left the store as [b]. *)
Definition after_exec (d : sqlDB) (done : list string) (b : bytes) (w : World)
  : World :=
  set_fs (insert (dsn d) b) (set_exec_log (exec_log w ++ logged d done) w).

(** A computation that returns and leaves the world as it found it. *)
Definition is_noop {A} (m : M A) (w : World) : Prop := ∃ a, m w = Ret a w.

(** ** The world a successful [readDB] leaves

    The input (unless standard input is a terminal) has been consumed, a
    fresh handle is open, and the backing store holds what the engine made
    of the copied bytes when the connection was checked. *)
Definition acquired (E : Env) (terminal : bool) (b : bytes) (w : World) : World :=
  set_fs (insert (tmp_name E) b)
    (set_dbs (S (next_db w)) ({[ next_db w ]} ∪ open_dbs w)
       (if terminal then w else set_stdin [] (S (stdin_reads w)) w)).

(** The handle [readDB] returns in world [w]. *)
Definition new_handle (E : Env) (w : World) : sqlDB :=
  {| db_id := next_db w; dsn := tmp_name E |}.

(** The bytes [readDB] puts into the backing store before it opens it. *)
Definition copied (terminal : bool) (w : World) : bytes :=
  if terminal then [] else stdin_data w.

(** ** text_files/local.go

    [ReadDir] lists a directory through [os.ReadDir] and keeps the regular
    files whose name ends, case-insensitively, in a suffix.  The directory
    listing, [strings.ToLower] (which works on Unicode text) and
    [filepath.Join] are library functions and stay parameters;
    [strings.HasSuffix] compares bytes and is written out. *)

Module TextFiles.

(** What the code uses of an [os.DirEntry]. *)
Record DirEntry := { Name : string; IsDir : bool }.

(** The slice expression [s[k:]] for [0 <= k <= len(s)]. *)
Fixpoint drop_string (k : nat) (s : string) : string :=
  match k, s with
  | O, _ => s
  | S k', String _ r => drop_string k' r
  | S _, EmptyString => EmptyString
  end.

(** [strings.HasSuffix(s, suffix)]:
    [len(s) >= len(suffix) && s[len(s)-len(suffix):] == suffix]. *)
Definition HasSuffix (s suffix : string) : bool :=
  (String.length suffix <=? String.length s)%nat
  && String.eqb (drop_string (String.length s - String.length suffix) s) suffix.

Section ReadDir.
Context (os_ReadDir : string → list DirEntry * option error)
        (ToLower : string → string)
        (Join : string → string → string).

(** The loop of [ReadDir]: [results] grows by [append]. *)
Fixpoint scan (dir suffix : string) (entries : list DirEntry)
    (results : list string) : list string :=
  match entries with
  | [] => results
  | entry :: rest =>
      if IsDir entry then scan dir suffix rest results
      else if HasSuffix (ToLower (Name entry)) (ToLower suffix)
      then scan dir suffix rest (results ++ [Join dir (Name entry)])
      else scan dir suffix rest results
  end.

(** [func ReadDir(dir string, suffix string) ([]string, error)]; a nil slice
    is the empty list. *)
Definition ReadDir (dir suffix : string) : list string * option error :=
  match os_ReadDir dir with
  | (_, Some err) =>
      ([], Some ("reading directory " +:+ dir +:+ ": " +:+ err))
  | (entries, None) => (scan dir suffix entries [], None)
  end.

(** An entry [ReadDir] keeps. *)
Definition kept (suffix : string) (entry : DirEntry) : bool :=
  negb (IsDir entry) && HasSuffix (ToLower (Name entry)) (ToLower suffix).

End ReadDir.

(** [strings.ToLower] on text that is ASCII only. *)
Definition ascii_lower (c : ascii) : ascii :=
  let n := nat_of_ascii c in
  if (65 <=? n)%nat && (n <=? 90)%nat then ascii_of_nat (n + 32) else c.

Fixpoint ToLower_ascii (s : string) : string :=
  match s with
  | EmptyString => EmptyString
  | String c r => String (ascii_lower c) (ToLower_ascii r)
  end.

(** [filepath.Join] of a clean directory and a file name. *)
Definition Join_simple (dir name : string) : string := dir +:+ "/" +:+ name.

(** A directory listing to evaluate [ReadDir] on. *)
Definition listing (dir : string) : list DirEntry * option error :=
  if String.eqb dir "/audio" then
    ([ {| Name := "GEN_01.MP3"; IsDir := false |};
       {| Name := "README.txt"; IsDir := false |};
       {| Name := "archive.mp3"; IsDir := true |};
       {| Name := "gen_02.mp3"; IsDir := false |} ], None)
  else ([], Some "no such file or directory").

End TextFiles.

(** ** What the logger writes *)

(** The statement of [insertLog]. *)
Definition insert_stmt : string :=
  "INSERT INTO log (component, level, message) VALUES (?, ?, ?)".

(** The line [insertLog] prints when the insert fails with [e]. *)
Definition warn_line (component e : string) : string :=
  "WARN [" +:+ component +:+ "]: failed to write log to db: " +:+ e
  +:+ newline.

(** The line [Error] prints. *)
Definition error_line (component msg : string) : string :=
  "ERROR [" +:+ component +:+ "]: " +:+ msg +:+ newline.

(** What [Exec] of the insert returns in world [w]: the engine's verdict
    through an open handle, the closed-handle error otherwise. *)
Definition insert_verdict (E : Env) (d : sqlDB) (component level message : string)
    (w : World) : option error :=
  if bool_decide (db_id d ∈ open_dbs w)
  then (eng_exec E insert_stmt [component; level; message] (store d w)).1
  else Some "sql: database is closed".

(** ** One pipeline stage

    What a stage that only acquires and emits makes of its input, as the
    engine alone sees it: the input as connected, bootstrapped and closed;
    nothing when one of the three fails. *)
Definition emitted (E : Env) (input : bytes) : option bytes :=
  match eng_ping E input with
  | (None, b0) =>
      match run_stmts E Schema.stmts b0 with
      | Some b =>
          match eng_close E b with
          | (None, b3) => Some b3
          | (Some _, _) => None
          end
      | None => None
      end
  | (Some _, _) => None
  end.

(** The operating system refuses nothing: the temporary file can be
    created under a name not in use, the driver and the store can be
    opened, the input ends without error and the output takes every byte. *)
Definition os_cooperates (E : Env) (w : World) : Prop :=
  create_temp_err E = None ∧ sql_open_err E = None ∧ os_open_err E = None ∧
  fs w !! tmp_name E = None ∧ stdin_err w = None ∧ stdout_room w = None.

(** An engine whose connect and close leave the bytes alone, whether they
    succeed or fail. *)
Definition transparent (E : Env) : Prop :=
  ∀ b, (eng_ping E b).2 = b ∧ (eng_close E b).2 = b.

(** * Properties *)

(** ** The zero-padding helper *)

Section ZeroFillFacts.
Import Utility.

Lemma length_append (s t : string) :
  String.length (s +:+ t) = (String.length s + String.length t)%nat.
Proof.
  induction s as [|c s IH]; [reflexivity|].
  change (S (String.length (s +:+ t))
          = S (String.length s + String.length t)).
  now rewrite IH.
Qed.

Lemma length_zeros (n : nat) : String.length (zeros n) = n.
Proof.
  unfold zeros. induction n as [|n IH]; cbn; [reflexivity | now rewrite IH].
Qed.

Lemma seven_zeros_prefix (n : nat) :
  (n <= 7)%nat → String.substring 0 n "0000000" = zeros n.
Proof.
  intros Hn.
  do 8 (destruct n as [|n]; [reflexivity|]).
  lia.
Qed.

(** C9: [ZeroFill("42", 5)] is ["00042"], and a string at least as long as
    the requested size comes back unchanged. *)
Theorem ZeroFill_42_and_wide_input :
  ZeroFill "42" 5 = Val "00042" ∧
  ∀ (a : string) (size : Z), len a >= size → ZeroFill a size = Val a.
Proof.
  split; [reflexivity|].
  intros a size H. unfold ZeroFill.
  destruct (Z.geb_spec (len a) size) as [_|Hlt]; [reflexivity | lia].
Qed.

Lemma ZeroFill_wide_input_witness :
  len "genesis" >= 3 ∧ ZeroFill "genesis" 3 = Val "genesis".
Proof.
  split.
  - vm_compute. discriminate.
  - apply (proj2 ZeroFill_42_and_wide_input). vm_compute. discriminate.
Defined.

(** C10: when more than seven zeros are missing, the slice of the
    seven-character literal is out of range and [ZeroFill] panics; when
    between one and seven are missing it returns the string padded with
    exactly that many zeros, of the requested length. *)
Theorem ZeroFill_gap_over_seven_panics (a : string) (size : Z) :
  (size - len a > 7 →
     ZeroFill a size = Panics "slice bounds out of range") ∧
  (0 < size - len a <= 7 →
     ZeroFill a size = Val (zeros (Z.to_nat (size - len a)) +:+ a) ∧
     len (zeros (Z.to_nat (size - len a)) +:+ a) = size).
Proof.
  unfold ZeroFill, slice_to. split; intros H.
  - destruct (Z.geb_spec (len a) size) as [Hge|_]; [lia|].
    replace (len "0000000") with 7 by reflexivity.
    destruct (Z.leb_spec 0 (size - len a)) as [_|?]; [|lia].
    destruct (Z.leb_spec (size - len a) 7) as [?|_]; [lia|].
    reflexivity.
  - destruct (Z.geb_spec (len a) size) as [Hge|_]; [lia|].
    replace (len "0000000") with 7 by reflexivity.
    destruct (Z.leb_spec 0 (size - len a)) as [_|?]; [|lia].
    destruct (Z.leb_spec (size - len a) 7) as [_|?]; [|lia].
    cbn [andb]. rewrite seven_zeros_prefix by lia.
    split; [reflexivity|].
    unfold len in *. rewrite length_append, length_zeros. lia.
Qed.

Lemma ZeroFill_gap_over_seven_witness :
  10 - len "42" > 7 ∧ ZeroFill "42" 10 = Panics "slice bounds out of range".
Proof.
  split.
  - vm_compute. reflexivity.
  - apply (proj1 (ZeroFill_gap_over_seven_panics "42" 10)).
    vm_compute. reflexivity.
Defined.

End ZeroFillFacts.

(** ** The logger *)

Section LoggerFacts.
Context (E : Env) {any : Type} (Sprint : any → string).

(** C8, as the code has it: over a nil handle [Info] and [Warn] do nothing;
    [Error] still writes its line to standard error, and [Fatal] writes that
    line and exits with status 1.  None of the four reaches the database or
    panics. *)
Theorem nil_logger_behaviour (component : string) (args : list any) (w : World) :
  let l := NewLogger None component in
  let line := "ERROR [" +:+ component +:+ "]: "
              +:+ joinArgs Sprint args +:+ newline in
  Info E Sprint l args w = Ret tt w ∧
  Warn E Sprint l args w = Ret tt w ∧
  Error E Sprint l args w = Ret tt (set_stderr (stderr w ++ [line]) w) ∧
  Fatal E Sprint l args w = Exit 1 (set_stderr (stderr w ++ [line]) w).
Proof. repeat split. Qed.

End LoggerFacts.

(** C8 as stated fails: with a nil handle [Error] writes to standard error
    and [Fatal] ends the process. *)
Lemma nil_logger_Error_and_Fatal_not_noops :
  let l := NewLogger None "loader" in
  let w := Catalog.start [] in
  ¬ is_noop (Error Catalog.piped id l ["disk full"]) w ∧
  ¬ is_noop (Fatal Catalog.piped id l ["disk full"]) w ∧
  stderr (world_of (Error Catalog.piped id l ["disk full"] w))
    = ["ERROR [loader]: disk full" +:+ newline] ∧
  Fatal Catalog.piped id l ["disk full"] w
    = Exit 1 (set_stderr ["ERROR [loader]: disk full" +:+ newline] w).
Proof.
  cbv zeta. repeat split.
  - intros [a H]. vm_compute in H. discriminate H.
  - intros [a H]. vm_compute in H. discriminate H.
Qed.

(** ** The bootstrap loop *)

Section ExecFacts.
Context (E : Env).

Lemma after_exec_twice (d : sqlDB) (l1 l2 : list string) (b1 b2 : bytes)
    (w : World) :
  after_exec d l2 b2 (after_exec d l1 b1 w) = after_exec d (l1 ++ l2) b2 w.
Proof.
  destruct w. unfold after_exec, set_fs, set_exec_log, logged. cbn.
  rewrite insert_insert_eq, map_app, app_assoc. reflexivity.
Qed.

Lemma store_after_exec (d : sqlDB) (l : list string) (b : bytes) (w : World) :
  store d (after_exec d l b w) = b.
Proof. unfold store, after_exec. cbn. now rewrite lookup_insert_eq. Qed.

(** One [Exec] through an open handle. *)
Lemma db_Exec_open (d : sqlDB) (s : string) (w : World) :
  db_id d ∈ open_dbs w →
  db_Exec E (Some d) s [] w
  = Ret (eng_exec E s [] (store d w)).1
        (after_exec d [s] (eng_exec E s [] (store d w)).2 w).
Proof.
  intros Hopen. unfold db_Exec, on_store, is_open, bind, modify, get.
  cbn [open_dbs fs set_exec_log].
  rewrite bool_decide_eq_true_2 by assumption.
  cbn [open_dbs fs set_exec_log].
  fold (store d w). destruct (eng_exec E s [] (store d w)) as [e b'].
  reflexivity.
Qed.

(** One [Exec] through a closed handle: the engine is not reached. *)
Lemma db_Exec_closed (d : sqlDB) (s : string) (w : World) :
  db_id d ∉ open_dbs w →
  db_Exec E (Some d) s [] w
  = Ret (Some "sql: database is closed")
        (set_exec_log (exec_log w ++ logged d [s]) w).
Proof.
  intros Hclosed. unfold db_Exec, is_open, bind, modify, get. cbn.
  rewrite bool_decide_eq_false_2 by assumption. reflexivity.
Qed.

(** One turn of the loop. *)
Lemma exec_each_cons (db : option sqlDB) (s : string) (l : list string)
    (w : World) :
  exec_each E db (s :: l) w
  = match db_Exec E db s [] w with
    | Ret (Some e) w' =>
        Ret (Some ("schema exec " +:+ fmt_q E (head60 s) +:+ ": " +:+ e)) w'
    | Ret None w' => exec_each E db l w'
    | Panic msg w' => Panic msg w'
    | Exit c w' => Exit c w'
    end.
Proof.
  cbn [exec_each]. unfold bind.
  destruct (db_Exec E db s [] w) as [[e|] w'| |]; reflexivity.
Qed.

Lemma run_until_cons (s : string) (l : list string) (b : bytes) :
  run_until E (s :: l) b
  = match eng_exec E s [] b with
    | (Some e, b') => (Some (s, e), b', [s])
    | (None, b') =>
        let '(res, b'', done) := run_until E l b' in (res, b'', s :: done)
    end.
Proof. reflexivity. Qed.

(** The loop through an open handle is [run_until] on the store. *)
Lemma exec_each_open (d : sqlDB) (l : list string) :
  ∀ (s : string) (w : World),
    db_id d ∈ open_dbs w →
    exec_each E (Some d) (s :: l) w
    = let '(res, b, done) := run_until E (s :: l) (store d w) in
      Ret (schema_error E res) (after_exec d done b w).
Proof.
  induction l as [|t l IH]; intros s w Hopen;
    rewrite exec_each_cons, db_Exec_open, run_until_cons by assumption;
    destruct (eng_exec E s [] (store d w)) as [[e|] b']; try reflexivity.
  cbn [fst snd].
  rewrite (IH t (after_exec d [s] b' w)) by exact Hopen.
  rewrite store_after_exec.
  destruct (run_until E (t :: l) b') as [[res b''] done].
  now rewrite after_exec_twice.
Qed.

(** [run_until] reports no failure exactly when [run_stmts] has a result. *)
Lemma run_until_ok (l : list string) :
  ∀ b b', run_stmts E l b = Some b' ↔
          ∃ done, run_until E l b = (None, b', done).
Proof.
  induction l as [|s l IH]; intros b b'; cbn.
  - split; [intros [= ->]; now exists [] | intros [? [= ->]]; reflexivity].
  - destruct (eng_exec E s [] b) as [[e|] b1].
    + split; [discriminate | intros [? [=]]].
    + rewrite IH. destruct (run_until E l b1) as [[res b2] done].
      split; intros [x [= -> ->]]; eexists; reflexivity.
Qed.

Lemma run_until_ok_done (l : list string) :
  ∀ b b' done, run_until E l b = (None, b', done) → done = l.
Proof.
  induction l as [|s l IH]; intros b b' done; cbn.
  - now intros [= _ <-].
  - destruct (eng_exec E s [] b) as [[e|] b1]; [discriminate|].
    destruct (run_until E l b1) as [[res b2] done'] eqn:Hr.
    intros [= -> -> <-]. f_equal. eapply IH. exact Hr.
Qed.

End ExecFacts.

(** ** The schema bootstrap: order and fail-fast *)

Section BootstrapFacts.
Context (E : Env).

Lemma db_Exec_log (d : sqlDB) (s : string) (w w' : World) (r : option error) :
  db_Exec E (Some d) s [] w = Ret r w' →
  exec_log w' = exec_log w ++ logged d [s].
Proof.
  destruct (decide (db_id d ∈ open_dbs w)) as [Ho|Hc].
  - rewrite db_Exec_open by assumption. now intros [= _ <-].
  - rewrite db_Exec_closed by assumption. now intros [= _ <-].
Qed.

Lemma exec_each_log (d : sqlDB) (l : list string) :
  ∀ w w', exec_each E (Some d) l w = Ret None w' →
          exec_log w' = exec_log w ++ logged d l.
Proof.
  induction l as [|s l IH]; intros w w'.
  - intros [= <-]. unfold logged. cbn. now rewrite app_nil_r.
  - rewrite exec_each_cons.
    destruct (db_Exec E (Some d) s [] w) as [[e|] w1| |] eqn:Hs;
      try discriminate.
    intros Hl. rewrite (IH _ _ Hl), (db_Exec_log _ _ _ _ _ Hs).
    unfold logged. cbn. now rewrite <- app_assoc.
Qed.

(** The loop stops at the first statement that fails. *)
Lemma exec_each_stops (db : option sqlDB) (pre : list string) :
  ∀ (s : string) (post : list string) (e : error) (w w1 w2 : World),
    exec_each E db pre w = Ret None w1 →
    db_Exec E db s [] w1 = Ret (Some e) w2 →
    exec_each E db (pre ++ s :: post) w
    = Ret (Some ("schema exec " +:+ fmt_q E (head60 s) +:+ ": " +:+ e)) w2.
Proof.
  induction pre as [|t pre IH]; intros s post e w w1 w2.
  - intros [= <-] Hs. cbn [app]. now rewrite exec_each_cons, Hs.
  - cbn [app]. rewrite !exec_each_cons.
    destruct (db_Exec E db t [] w) as [[e'|] w'| |]; try discriminate.
    apply IH.
Qed.

(** When [run_until] reports a failure, the failing statement is the last
    one handed to the engine and everything before it is a leading part of
    the list. *)
Lemma run_until_failed (l : list string) :
  ∀ b s e b' done,
    run_until E l b = (Some (s, e), b', done) →
    ∃ pre post, l = pre ++ s :: post ∧ done = pre ++ [s].
Proof.
  induction l as [|t l IH]; intros b s e b' done; cbn [run_until].
  - discriminate.
  - destruct (eng_exec E t [] b) as [[e1|] b1].
    + intros [= <- _ _ <-]. now exists [], l.
    + destruct (run_until E l b1) as [[res b2] done'] eqn:Hr.
      intros [= -> _ <-].
      destruct (IH _ _ _ _ _ Hr) as (pre & post & -> & ->).
      now exists (t :: pre), post.
Qed.

End BootstrapFacts.

(** C6: the bootstrap is a fixed list: after the connection pragma, four
    table definitions and five index definitions, every table and index
    after the tables it names ([ident] before [scripts] before [words]).
    [createSchema] executes that list in its order: when every statement
    succeeds it returns no error, having handed all ten statements to the
    engine one after the other, each on the store the one before left, and
    it returns no error in no other way.  When a statement fails after its
    predecessors succeeded, [createSchema] returns that statement's error in
    the very world the failed [Exec] left: nothing after it is handed to
    the engine; and every error it returns is the error of the statement it
    executed last. *)
Theorem createSchema_ordered_fail_fast :
  map Ddl.classify Schema.stmts
  = [ Ddl.Pragma "temp_store";
      Ddl.CreateTable "ident" [];
      Ddl.CreateIndex true "ident_bible_idx" "ident";
      Ddl.CreateTable "scripts" ["ident"];
      Ddl.CreateIndex true "scripts_idx" "scripts";
      Ddl.CreateIndex false "script_num_idx" "scripts";
      Ddl.CreateIndex false "scripts_file_idx" "scripts";
      Ddl.CreateTable "words" ["scripts"];
      Ddl.CreateIndex true "words_idx" "words";
      Ddl.CreateTable "log" [] ] ∧
  length (filter (λ k, Ddl.is_table k = true) (map Ddl.classify Schema.stmts))
    = 4%nat ∧
  length (filter (λ k, Ddl.is_index k = true) (map Ddl.classify Schema.stmts))
    = 5%nat ∧
  Ddl.ordered [] (map Ddl.classify Schema.stmts) = true ∧
  (∀ (E : Env) (d : sqlDB) (pre : list string) (s : string)
     (post : list string) (e : error) (w w1 w2 : World),
     Schema.stmts = pre ++ s :: post →
     exec_each E (Some d) pre w = Ret None w1 →
     db_Exec E (Some d) s [] w1 = Ret (Some e) w2 →
     createSchema E (Some d) w
     = Ret (Some ("schema exec " +:+ fmt_q E (head60 s) +:+ ": " +:+ e)) w2 ∧
     exec_log w2 = exec_log w ++ logged d (pre ++ [s])) ∧
  (∀ (E : Env) (d : sqlDB) (w : World) (b : bytes),
     db_id d ∈ open_dbs w →
     run_stmts E Schema.stmts (store d w) = Some b →
     createSchema E (Some d) w = Ret None (after_exec d Schema.stmts b w)) ∧
  (∀ (E : Env) (d : sqlDB) (w w' : World),
     createSchema E (Some d) w = Ret None w' →
     db_id d ∈ open_dbs w ∧
     ∃ b, run_stmts E Schema.stmts (store d w) = Some b ∧
          w' = after_exec d Schema.stmts b w) ∧
  (∀ (E : Env) (d : sqlDB) (w w' : World) (e : error),
     createSchema E (Some d) w = Ret (Some e) w' →
     ∃ pre s post e0,
       Schema.stmts = pre ++ s :: post ∧
       e = "schema exec " +:+ fmt_q E (head60 s) +:+ ": " +:+ e0 ∧
       exec_log w' = exec_log w ++ logged d (pre ++ [s])).
Proof.
  split; [vm_compute; reflexivity|].
  split; [vm_compute; reflexivity|].
  split; [vm_compute; reflexivity|].
  split; [vm_compute; reflexivity|].
  split; [|split; [|split]].
  - intros E d pre s post e w w1 w2 Hsplit Hpre Hs. split.
    + unfold createSchema. rewrite Hsplit. eapply exec_each_stops; eassumption.
    + rewrite (db_Exec_log _ _ _ _ _ _ Hs), (exec_each_log _ _ _ _ _ Hpre).
      unfold logged. now rewrite map_app, app_assoc.
  - intros E d w b Ho Hrun. unfold createSchema.
    apply run_until_ok in Hrun as [done Hrun].
    pose proof (run_until_ok_done _ _ _ _ _ Hrun) as ->.
    unfold Schema.stmts at 1. rewrite exec_each_open by exact Ho.
    fold Schema.stmts. now rewrite Hrun.
  - intros E d w w' H. unfold createSchema in H.
    destruct (decide (db_id d ∈ open_dbs w)) as [Ho|Hc].
    + unfold Schema.stmts at 1 in H. rewrite exec_each_open in H by exact Ho.
      fold Schema.stmts in H.
      destruct (run_until E Schema.stmts (store d w)) as [[res b] done] eqn:Hr.
      destruct res as [[s e]|]; [discriminate H|].
      injection H as <-. split; [exact Ho|]. exists b.
      split; [apply run_until_ok; eauto|].
      now rewrite (run_until_ok_done _ _ _ _ _ Hr).
    + unfold Schema.stmts at 1 in H.
      rewrite exec_each_cons, db_Exec_closed in H by exact Hc. discriminate H.
  - intros E d w w' e H. unfold createSchema in H.
    destruct (decide (db_id d ∈ open_dbs w)) as [Ho|Hc].
    + unfold Schema.stmts at 1 in H. rewrite exec_each_open in H by exact Ho.
      fold Schema.stmts in H.
      destruct (run_until E Schema.stmts (store d w)) as [[res b] done] eqn:Hr.
      destruct res as [[s e0]|]; [|discriminate H].
      injection H as <- <-.
      destruct (run_until_failed _ _ _ _ _ _ _ Hr) as (pre & post & Hl & ->).
      exists pre, s, post, e0. split; [exact Hl|]. split; reflexivity.
    + unfold Schema.stmts at 1 in H.
      rewrite exec_each_cons, db_Exec_closed in H by exact Hc.
      injection H as <- <-.
      exists [], Schema.pragma_temp_store, (tail Schema.stmts),
             "sql: database is closed".
      split; [reflexivity|]. split; reflexivity.
Qed.

Lemma createSchema_fail_fast_witness :
  let E := Catalog.failing in
  let d := Catalog.handle in
  let w := Catalog.opened E [] in
  let pre := [Schema.pragma_temp_store; Schema.create_ident;
              Schema.create_ident_bible_idx] in
  let w1 := world_of (exec_each E (Some d) pre w) in
  let w2 := world_of (db_Exec E (Some d) Schema.create_scripts [] w1) in
  let w0 := Catalog.opened Catalog.piped [] in
  (createSchema E (Some d) w
   = Ret (Some ("schema exec "
                +:+ fmt_q E (head60 Schema.create_scripts)
                +:+ ": " +:+ "disk I/O error")) w2 ∧
   exec_log w2 = exec_log w ++ logged d (pre ++ [Schema.create_scripts])) ∧
  createSchema Catalog.piped (Some d) w0
  = Ret None (after_exec d Schema.stmts Catalog.with_schema w0).
Proof.
  cbv zeta. split.
  - apply (proj1 (proj2 (proj2 (proj2 (proj2 createSchema_ordered_fail_fast)))))
      with (post := [Schema.create_scripts_idx; Schema.create_script_num_idx;
                     Schema.create_scripts_file_idx; Schema.create_words;
                     Schema.create_words_idx; Schema.create_log])
           (w1 := world_of (exec_each Catalog.failing (Some Catalog.handle)
                              [Schema.pragma_temp_store; Schema.create_ident;
                               Schema.create_ident_bible_idx]
                              (Catalog.opened Catalog.failing []))).
    + reflexivity.
    + vm_compute. reflexivity.
    + vm_compute. reflexivity.
  - apply (proj1 (proj2 (proj2 (proj2 (proj2
             (proj2 createSchema_ordered_fail_fast)))))).
    + vm_compute. reflexivity.
    + vm_compute. reflexivity.
Defined.

(** ** The schema bootstrap run twice *)

Section Idempotence.
Context (E : Env) (HE : honours_if_not_exists E).

Lemma noop_kept (l : list string) :
  Forall (λ t, Ddl.guarded t = true) l →
  ∀ (s : string) (b b' : bytes),
    Ddl.guarded s = true → noop E s b →
    run_stmts E l b = Some b' → noop E s b'.
Proof.
  induction 1 as [|t l Ht _ IH]; intros s b b' Hs Hn; cbn.
  - now intros [= <-].
  - destruct (eng_exec E t [] b) as [[e|] b1] eqn:Ht1; [discriminate|].
    intros Hr. eapply IH; [exact Hs | | exact Hr].
    exact (stable E HE s t b b1 Hs Ht Hn Ht1).
Qed.

Lemma all_noop_after (l : list string) :
  Forall (λ t, Ddl.guarded t = true) l →
  ∀ b b', run_stmts E l b = Some b' → Forall (λ s, noop E s b') l.
Proof.
  induction 1 as [|t l Ht Hl IH]; intros b b'; cbn; [constructor|].
  destruct (eng_exec E t [] b) as [[e|] b1] eqn:Ht1; [discriminate|].
  intros Hr. constructor; [|now apply (IH b1)].
  eapply noop_kept; [exact Hl | exact Ht | | exact Hr].
  exact (absorbed E HE t b b1 Ht Ht1).
Qed.

Lemma run_noops (l : list string) (b : bytes) :
  Forall (λ s, noop E s b) l → run_stmts E l b = Some b.
Proof.
  induction 1 as [|s l Hs _ IH]; cbn; [reflexivity|].
  unfold noop in Hs. now rewrite Hs.
Qed.

Lemma run_stmts_twice (l : list string) (b b' : bytes) :
  Forall (λ t, Ddl.guarded t = true) l →
  run_stmts E l b = Some b' → run_stmts E l b' = Some b'.
Proof. intros Hl Hr. apply run_noops. eapply all_noop_after; eassumption. Qed.

End Idempotence.

Lemma stmts_guarded : Forall (λ t, Ddl.guarded t = true) Schema.stmts.
Proof.
  unfold Schema.stmts.
  repeat (constructor; [vm_compute; reflexivity|]). constructor.
Qed.

(** A successful bootstrap went through an open handle and left the store
    [run_stmts] computes. *)
Lemma createSchema_ok (E : Env) (db : option sqlDB) (w w1 : World) :
  createSchema E db w = Ret None w1 →
  ∃ d b, db = Some d ∧ db_id d ∈ open_dbs w ∧
         run_stmts E Schema.stmts (store d w) = Some b ∧
         w1 = after_exec d Schema.stmts b w.
Proof.
  unfold createSchema, Schema.stmts. intros H.
  destruct db as [d|]; [|discriminate H].
  destruct (decide (db_id d ∈ open_dbs w)) as [Ho|Hc].
  - rewrite exec_each_open in H by assumption.
    destruct (run_until E _ (store d w)) as [[res b] done] eqn:Hr.
    destruct res as [[s e]|]; [discriminate H|].
    injection H as <-. exists d, b. repeat split; [assumption| |].
    + apply run_until_ok. eauto.
    + now rewrite (run_until_ok_done _ _ _ _ _ Hr).
  - rewrite exec_each_cons, db_Exec_closed in H by assumption. discriminate H.
Qed.

(** C5: when a bootstrap has succeeded, a second one on the same store
    succeeds too and leaves every file, the store with its tables and
    indices included, as the first run left it; this holds with every
    engine that honours [IF NOT EXISTS]. *)
Theorem createSchema_twice (E : Env) (db : option sqlDB) (w w1 : World) :
  honours_if_not_exists E →
  createSchema E db w = Ret None w1 →
  ∃ w2, createSchema E db w1 = Ret None w2 ∧ fs w2 = fs w1.
Proof.
  intros HE H1.
  destruct (createSchema_ok _ _ _ _ H1) as (d & b & -> & Ho & Hr & ->).
  pose proof (run_stmts_twice E HE _ _ _ stmts_guarded Hr) as Hr2.
  apply run_until_ok in Hr2 as [done Hr2].
  exists (after_exec d done b (after_exec d Schema.stmts b w)). split.
  - unfold createSchema, Schema.stmts in *.
    rewrite exec_each_open by exact Ho.
    rewrite store_after_exec, Hr2. reflexivity.
  - cbn. now rewrite insert_insert_eq.
Qed.

(** ** The catalog engine honours [IF NOT EXISTS] *)

Section CatalogFacts.
Import Catalog.

Lemma lines_from_newline (b r : bytes) :
  ∀ cur, lines_from cur (b ++ nl :: r) = lines_from cur b ++ lines_from [] r.
Proof.
  induction b as [|x b IH]; intros cur; cbn.
  - rewrite bool_decide_eq_true_2 by reflexivity. now destruct cur.
  - case_bool_decide; [destruct cur|]; cbn; now rewrite IH.
Qed.

Lemma lines_from_name (n : bytes) :
  ∀ cur, nl ∉ n → cur ++ n ≠ [] → lines_from cur (n ++ [nl]) = [cur ++ n].
Proof.
  induction n as [|x n IH]; intros cur Hnl Hne; cbn.
  - rewrite bool_decide_eq_true_2 by reflexivity.
    rewrite app_nil_r in *. now destruct cur.
  - apply not_elem_of_cons in Hnl as [Hx Hn].
    rewrite bool_decide_eq_false_2 by congruence.
    rewrite IH; [now rewrite <- app_assoc | assumption |].
    rewrite <- app_assoc. exact Hne.
Qed.

Lemma entries_add (n b : bytes) :
  valid_name n = true → entries (add n b) = entries b ++ [n].
Proof.
  unfold valid_name, entries, add. intros [Hne Hnl]%andb_prop.
  apply bool_decide_eq_true in Hne, Hnl.
  rewrite lines_from_newline, lines_from_name; auto.
Qed.

Lemma has_add_same (n b : bytes) : valid_name n = true → has n (add n b) = true.
Proof.
  intros Hv. unfold has. rewrite entries_add by assumption.
  apply bool_decide_eq_true. set_solver.
Qed.

Lemma has_add_other (m n b : bytes) :
  valid_name n = true → has m b = true → has m (add n b) = true.
Proof.
  intros Hv. unfold has. rewrite entries_add by assumption.
  rewrite !bool_decide_eq_true. set_solver.
Qed.

Lemma add_changes (n b : bytes) : add n b ≠ b.
Proof.
  unfold add. intros H. apply (f_equal length) in H.
  rewrite length_app in H. cbn in H. lia.
Qed.

(** What a successful [create] can have done. *)
Lemma create_ok (name : string) (needs : option string) (b b' : bytes) :
  create name needs b = (None, b') →
  valid_name (list_byte_of_string name) = true ∧
  (has (list_byte_of_string name) b = true ∧ b' = b
   ∨ b' = add (list_byte_of_string name) b).
Proof.
  unfold create.
  destruct (valid_name (list_byte_of_string name)); cbn; [|discriminate].
  destruct (has (list_byte_of_string name) b).
  - intros [= <-]. auto.
  - destruct needs as [t|].
    + destruct (has (list_byte_of_string t) b); [|discriminate].
      intros [= <-]. auto.
    + intros [= <-]. auto.
Qed.

Lemma create_present (name : string) (needs : option string) (b : bytes) :
  valid_name (list_byte_of_string name) = true →
  has (list_byte_of_string name) b = true →
  create name needs b = (None, b).
Proof. intros Hv Hh. unfold create. now rewrite Hv, Hh. Qed.

Lemma create_absorbed (name : string) (needs : option string) (b b' : bytes) :
  create name needs b = (None, b') → create name needs b' = (None, b').
Proof.
  intros H. destruct (create_ok _ _ _ _ H) as [Hv [[Hh ->] | ->]].
  - now apply create_present.
  - apply create_present; [assumption | now apply has_add_same].
Qed.

Lemma create_noop (name : string) (needs : option string) (b : bytes) :
  create name needs b = (None, b) →
  valid_name (list_byte_of_string name) = true ∧
  has (list_byte_of_string name) b = true.
Proof.
  intros H. destruct (create_ok _ _ _ _ H) as [Hv [[Hh _] | Habs]]; [auto|].
  symmetry in Habs. now apply add_changes in Habs.
Qed.

(** A successful statement only ever adds to the store. *)
Lemma exec_grows (t : string) (b b' : bytes) (m : bytes) :
  exec t [] b = (None, b') → has m b = true → has m b' = true.
Proof.
  unfold exec. intros H Hm.
  destruct (Ddl.classify t) as [p|name parents|u name table|].
  - now injection H as <-.
  - destruct (create_ok _ _ _ _ H) as [Hv [[_ ->] | ->]];
      [assumption | now apply has_add_other].
  - destruct (create_ok _ _ _ _ H) as [Hv [[_ ->] | ->]];
      [assumption | now apply has_add_other].
  - discriminate H.
Qed.

Lemma catalog_honours (stdin_mode stdout_mode : Z) :
  honours_if_not_exists (env stdin_mode stdout_mode connect exec).
Proof.
  split; unfold noop; cbn [eng_exec env].
  - intros s b b' _ H. unfold exec in *.
    destruct (Ddl.classify s) as [p|name parents|u name table|].
    + now injection H as <-.
    + exact (create_absorbed _ _ _ _ H).
    + exact (create_absorbed _ _ _ _ H).
    + discriminate H.
  - intros s t b b' _ _ Hs Ht.
    pose proof (λ m, exec_grows t b b' m Ht) as Hgrow.
    unfold exec in Hs |- *.
    destruct (Ddl.classify s) as [p|name parents|u name table|].
    + reflexivity.
    + apply create_noop in Hs as [Hv Hh]. apply create_present; auto.
    + apply create_noop in Hs as [Hv Hh]. apply create_present; auto.
    + discriminate Hs.
Qed.

End CatalogFacts.

Lemma createSchema_twice_witness :
  let E := Catalog.piped in
  let db := Some Catalog.handle in
  let w := Catalog.opened E [] in
  let w1 := world_of (createSchema E db w) in
  honours_if_not_exists E ∧
  createSchema E db w = Ret None w1 ∧
  ∃ w2, createSchema E db w1 = Ret None w2 ∧ fs w2 = fs w1.
Proof.
  cbv zeta. split; [apply catalog_honours|].
  split; [vm_compute; reflexivity|].
  apply (createSchema_twice Catalog.piped (Some Catalog.handle)
           (Catalog.opened Catalog.piped [])).
  - apply catalog_honours.
  - vm_compute. reflexivity.
Defined.

(** ** Acquire *)

Ltac unfold_io :=
  unfold OpenDB, CloseDB, OutputDB, writeDB, readDB, defer, os_CreateTemp,
    io_Copy_in, io_Copy_out, sql_Open, db_Ping, db_Close, os_Remove, os_Open,
    os_File_Close, Fprintln_stderr, on_store, is_open, bind, ret, get, modify,
    panic in *.

Ltac world_fields :=
  cbn [fs next_db open_dbs stdin_data stdin_err stdin_reads stdout
       stdout_room stderr exec_log set_fs set_dbs set_stdin set_stdout
       set_stderr set_exec_log db_id dsn fst snd negb] in *.

Ltac io_step :=
  world_fields; cbv beta iota; cbn [from_option id app];
  rewrite ?lookup_insert_eq, ?lookup_delete_eq;
  try rewrite (bool_decide_eq_true_2 (is_Some (Some _))) by eauto;
  try rewrite (bool_decide_eq_false_2 (is_Some None)) by (apply is_Some_None);
  try rewrite (bool_decide_eq_true_2 (_ ∈ {[ _ ]} ∪ _)) by set_solver;
  world_fields; cbv beta iota.

Ltac fs_solve :=
  world_fields; cbv beta;
  repeat (rewrite ?delete_insert_eq, ?insert_insert_eq; world_fields; cbv beta);
  first [ reflexivity | now apply delete_insert_id | now apply delete_id ].

Lemma world_eq (w1 w2 : World) :
  fs w1 = fs w2 → next_db w1 = next_db w2 → open_dbs w1 = open_dbs w2 →
  stdin_data w1 = stdin_data w2 → stdin_err w1 = stdin_err w2 →
  stdin_reads w1 = stdin_reads w2 → stdout w1 = stdout w2 →
  stdout_room w1 = stdout_room w2 → stderr w1 = stderr w2 →
  exec_log w1 = exec_log w2 → w1 = w2.
Proof. destruct w1, w2. cbn. intros; subst; reflexivity. Qed.

Section AcquireFacts.
Context (E : Env).

Lemma readDB_ok (terminal : bool) (w : World) (b : bytes) :
  create_temp_err E = None →
  fs w !! tmp_name E = None →
  (terminal = false → stdin_err w = None) →
  sql_open_err E = None →
  eng_ping E (copied terminal w) = (None, b) →
  readDB E StdinReader terminal w
  = Ret (Some (new_handle E w), tmp_name E, None) (acquired E terminal b w).
Proof.
  intros Hct Hfresh Hin Hopen Hping.
  unfold_io. rewrite Hct, Hopen. cbn [String.eqb].
  fold (tmp_name E). rewrite Hfresh.
  unfold copied in Hping.
  destruct terminal; repeat io_step.
  - cbn [from_option id]. rewrite Hping. repeat io_step.
    f_equal. apply world_eq; unfold acquired; world_fields; try reflexivity.
    now rewrite insert_insert_eq.
  - rewrite Hin by reflexivity. repeat io_step.
    cbn [from_option id app]. rewrite Hping. repeat io_step.
    f_equal. apply world_eq; unfold acquired; world_fields; try reflexivity.
    now rewrite !insert_insert_eq.
Qed.

(** Every way [readDB] can end. *)
Lemma readDB_cases (terminal : bool) (w : World) :
  (∃ e w', readDB E StdinReader terminal w = Ret (None, EmptyString, Some e) w'
           ∧ fs w' = fs w
           ∧ (terminal = true →
              stdin_data w' = stdin_data w ∧ stdin_reads w' = stdin_reads w))
  ∨ (∃ b, fs w !! tmp_name E = None
          ∧ eng_ping E (copied terminal w) = (None, b)
          ∧ readDB E StdinReader terminal w
            = Ret (Some (new_handle E w), tmp_name E, None)
                  (acquired E terminal b w)).
Proof.
  destruct (create_temp_err E) as [e|] eqn:Hct.
  { left. unfold_io. rewrite Hct. eauto 10. }
  destruct (fs w !! tmp_name E) as [x|] eqn:Hfresh.
  { left. unfold_io. rewrite Hct. cbn [String.eqb]. fold (tmp_name E).
    rewrite Hfresh. repeat io_step. eauto 10. }
  destruct (negb terminal && bool_decide (is_Some (stdin_err w))) eqn:Hin.
  { left. apply andb_prop in Hin as [Ht [e He]%bool_decide_eq_true].
    destruct terminal; [discriminate|].
    unfold_io. rewrite Hct. cbn [String.eqb]. fold (tmp_name E).
    rewrite Hfresh. repeat io_step. rewrite He. repeat io_step.
    do 2 eexists. split; [reflexivity|]. world_fields.
    split; [fs_solve | discriminate]. }
  assert (terminal = false → stdin_err w = None) as Hin'.
  { intros ->. cbn in Hin. apply bool_decide_eq_false in Hin.
    destruct (stdin_err w); [exfalso; eauto | reflexivity]. }
  destruct (sql_open_err E) as [e|] eqn:Hopen.
  { left. unfold_io. rewrite Hct, Hopen. cbn [String.eqb]. fold (tmp_name E).
    rewrite Hfresh.
    destruct terminal; repeat io_step;
      [|rewrite Hin' by reflexivity; repeat io_step];
      (do 2 eexists; split; [reflexivity|]; world_fields; split;
       [fs_solve | try discriminate; auto]). }
  destruct (eng_ping E (copied terminal w)) as [[e|] b] eqn:Hping.
  - left. unfold_io. rewrite Hct, Hopen. cbn [String.eqb]. fold (tmp_name E).
    rewrite Hfresh. unfold copied in Hping.
    destruct terminal; repeat io_step;
      [|rewrite Hin' by reflexivity; repeat io_step];
      rewrite Hping; repeat io_step;
      destruct (eng_close E b) as [ec bc]; repeat io_step;
      (do 2 eexists; split; [reflexivity|]; split;
       [fs_solve | try discriminate; auto]).
  - right. exists b. split; [reflexivity|]. split; [reflexivity|].
    now apply readDB_ok.
Qed.

Lemma acquired_open (t : bool) (b : bytes) (w : World) :
  db_id (new_handle E w) ∈ open_dbs (acquired E t b w).
Proof. unfold acquired. world_fields. set_solver. Qed.

Lemma store_acquired (t : bool) (b : bytes) (w : World) :
  store (new_handle E w) (acquired E t b w) = b.
Proof. unfold store, acquired. world_fields. now rewrite lookup_insert_eq. Qed.

(** [OpenDB] on its successful path. *)
Lemma OpenDB_ok (w : World) (b0 b : bytes) :
  create_temp_err E = None →
  fs w !! tmp_name E = None →
  (isTerminal E os_Stdin = false → stdin_err w = None) →
  sql_open_err E = None →
  eng_ping E (copied (isTerminal E os_Stdin) w) = (None, b0) →
  run_stmts E Schema.stmts b0 = Some b →
  OpenDB E w
  = Ret (Some (new_handle E w), tmp_name E, None)
        (after_exec (new_handle E w) Schema.stmts b
           (acquired E (isTerminal E os_Stdin) b0 w)).
Proof.
  intros Hct Hfresh Hin Hopen Hping Hrun.
  unfold OpenDB, bind. rewrite (readDB_ok _ _ b0) by assumption.
  unfold createSchema, Schema.stmts in *.
  rewrite exec_each_open by apply acquired_open.
  rewrite store_acquired.
  apply run_until_ok in Hrun as [done Hrun].
  rewrite Hrun, (run_until_ok_done _ _ _ _ _ Hrun). reflexivity.
Qed.

(** Every way [OpenDB] can end. *)
Lemma OpenDB_cases (w : World) :
  let t := isTerminal E os_Stdin in
  (∃ e w', OpenDB E w = Ret (None, EmptyString, Some e) w'
           ∧ fs w' = fs w
           ∧ (t = true →
              stdin_data w' = stdin_data w ∧ stdin_reads w' = stdin_reads w))
  ∨ (∃ b0 b, fs w !! tmp_name E = None
             ∧ eng_ping E (copied t w) = (None, b0)
             ∧ run_stmts E Schema.stmts b0 = Some b
             ∧ OpenDB E w
               = Ret (Some (new_handle E w), tmp_name E, None)
                     (after_exec (new_handle E w) Schema.stmts b
                        (acquired E t b0 w))).
Proof.
  intros t. subst t. unfold OpenDB, bind.
  destruct (readDB_cases (isTerminal E os_Stdin) w) as [(e & w' & -> & Hfs & Hin)
                                 | (b0 & Hfresh & Hping & ->)].
  { left. eauto 10. }
  unfold createSchema, Schema.stmts.
  rewrite exec_each_open by apply acquired_open.
  rewrite store_acquired.
  destruct (run_until E _ b0) as [[[[s e]|] b] done] eqn:Hrun.
  - left. cbn [schema_error]. unfold_io. unfold after_exec, acquired, new_handle.
    destruct (isTerminal E os_Stdin); repeat io_step;
      destruct (eng_close E b) as [ec bc]; repeat io_step;
      (do 2 eexists; split; [reflexivity|]; split; [fs_solve|]);
      [auto | discriminate].
  - right. exists b0, b. split; [assumption|]. split; [assumption|].
    split; [apply run_until_ok; eauto|].
    now rewrite (run_until_ok_done _ _ _ _ _ Hrun).
Qed.

End AcquireFacts.

(** C2: [OpenDB] always returns, and whenever it returns an error the
    scratch directory is exactly as it was before the call: the backing
    store that [readDB] created has been removed again, whether the copy of
    the input, the opening of the database, the connectivity check or the
    schema bootstrap failed.  No handle and no path are returned then. *)
Theorem OpenDB_failure_leaves_no_store (E : Env) (w : World) :
  (∃ r w', OpenDB E w = Ret r w') ∧
  ∀ db p e w',
    OpenDB E w = Ret (db, p, Some e) w' →
    fs w' = fs w ∧ db = None ∧ p = EmptyString.
Proof.
  destruct (OpenDB_cases E w) as [(e & w' & -> & Hfs & _)
                                 | (b0 & b & _ & _ & _ & ->)].
  - split; [eauto|]. intros db p e' w'' [= <- <- <- <-]. auto.
  - split; [eauto|]. discriminate.
Qed.

(** C7: when standard input is classified as a terminal, [OpenDB] does not
    read it (whatever the outcome, the input still holds its bytes and its
    read count is unchanged), and the backing store it returns holds exactly
    what the ten bootstrap statements make of the empty store the engine
    opened; the bootstrap statements are all that reached the engine. *)
Theorem OpenDB_at_terminal (E : Env) (w : World) :
  isTerminal E os_Stdin = true →
  stdin_data (world_of (OpenDB E w)) = stdin_data w ∧
  stdin_reads (world_of (OpenDB E w)) = stdin_reads w ∧
  ∀ db p w',
    OpenDB E w = Ret (db, p, None) w' →
    ∃ b0 b, eng_ping E [] = (None, b0) ∧
            run_stmts E Schema.stmts b0 = Some b ∧
            fs w' !! p = Some b ∧
            exec_log w' = exec_log w ++ logged (new_handle E w) Schema.stmts.
Proof.
  intros Ht. pose proof (OpenDB_cases E w) as H. cbv zeta in H.
  rewrite Ht in H. unfold copied in H.
  destruct H as [(e & w' & -> & Hfs & Hin) | (b0 & b & _ & Hping & Hrun & ->)].
  - cbn [world_of]. destruct (Hin eq_refl) as [H1 H2].
    split; [assumption|]. split; [assumption|]. discriminate.
  - cbn [world_of]. unfold after_exec, acquired. world_fields.
    split; [reflexivity|]. split; [reflexivity|].
    intros db p w' [= <- <- <-]. exists b0, b. world_fields.
    now rewrite lookup_insert_eq.
Qed.

(** ** Emit *)

Section EmitFacts.
Context (E : Env).

(** A deferred [os.Remove]: whatever the body did, the file is gone. *)
Lemma defer_Remove {A} (body : M A) (name : string) (w : World) :
  match defer (os_Remove name) body w, body w with
  | Ret a w', Ret a' _ => a = a' ∧ fs w' !! name = None
  | Panic _ w', Panic _ _ => fs w' !! name = None
  | Exit _ _, Exit _ _ => True
  | _, _ => False
  end.
Proof.
  unfold defer, os_Remove, bind, ret, get, modify.
  destruct (body w) as [a w'|msg w'|c w']; [| |exact I];
    (destruct (fs w' !! name) eqn:Hf;
     [ rewrite bool_decide_eq_true_2 by eauto; world_fields;
       try split; try reflexivity; apply lookup_delete_eq
     | rewrite bool_decide_eq_false_2 by (apply is_Some_None);
       try split; try reflexivity; assumption ]).
Qed.

(** A deferred [os.Remove] after a body that returns: the result is the
    body's, the file is gone, nothing else changes. *)
Lemma defer_Remove_ret {A} (body : M A) (name : string) (w w1 : World) (a : A) :
  body w = Ret a w1 →
  ∃ w', defer (os_Remove name) body w = Ret a w' ∧
        fs w' = delete name (fs w1) ∧
        open_dbs w' = open_dbs w1 ∧ stdout w' = stdout w1 ∧
        stdout_room w' = stdout_room w1 ∧ stderr w' = stderr w1.
Proof.
  intros Hb. unfold defer, os_Remove, bind, ret, get, modify. rewrite Hb.
  destruct (fs w1 !! name) eqn:Hf.
  - rewrite bool_decide_eq_true_2 by eauto. eexists. split; [reflexivity|].
    world_fields. auto 10.
  - rewrite bool_decide_eq_false_2 by (apply is_Some_None).
    eexists. split; [reflexivity|]. rewrite delete_id by assumption. auto 10.
Qed.

(** The terminal branch of [OutputDB]: two lines to standard error, the
    handle closed, nothing else. *)
Lemma terminal_branch (d : sqlDB) (w : World) :
  ∃ w1,
    (run Fprintln_stderr "stdout is a terminal, skipping database output";
     run Fprintln_stderr
           "pipe to a file or another component to capture the database";
     run db_Close E (Some d);
     ret None) w = Ret (@None error) w1 ∧
    stdout w1 = stdout w ∧ stdout_room w1 = stdout_room w ∧
    stderr w1
    = stderr w
      ++ ["stdout is a terminal, skipping database output" +:+ newline;
          "pipe to a file or another component to capture the database"
          +:+ newline] ∧
    db_id d ∉ open_dbs w1.
Proof.
  unfold_io. repeat io_step.
  destruct (decide (db_id d ∈ open_dbs w)) as [Ho|Hc].
  - rewrite (bool_decide_eq_true_2 _ Ho). repeat io_step.
    destruct (bool_decide (is_Some (fs w !! dsn d))); repeat io_step;
      [destruct (eng_close E _) as [ec bc]; repeat io_step|];
      (eexists; split; [reflexivity|]; world_fields;
       rewrite <- app_assoc; repeat split; try reflexivity;
       apply not_elem_of_difference; right; now apply elem_of_singleton).
  - rewrite (bool_decide_eq_false_2 _ Hc). repeat io_step.
    eexists. split; [reflexivity|]. world_fields.
    rewrite <- app_assoc. repeat split. assumption.
Qed.

(** The body of [OutputDB] returns unless the handle is nil. *)
Lemma OutputDB_body_returns (d : sqlDB) (dbPath : string) (w : World) :
  ∃ r w',
    (if isTerminal E os_Stdout then
       run Fprintln_stderr "stdout is a terminal, skipping database output";
       run Fprintln_stderr
             "pipe to a file or another component to capture the database";
       run db_Close E (Some d);
       ret None
     else writeDB E (Some d) dbPath StdoutWriter) w = Ret r w'.
Proof.
  unfold_io.
  destruct (isTerminal E os_Stdout); repeat io_step.
  all: repeat (case_match; repeat io_step; simplify_eq); eauto.
Qed.


(** With a nil handle the body panics at [db.Close()]. *)
Lemma OutputDB_body_nil (dbPath : string) (w : World) :
  ∃ msg w',
    (if isTerminal E os_Stdout then
       run Fprintln_stderr "stdout is a terminal, skipping database output";
       run Fprintln_stderr
             "pipe to a file or another component to capture the database";
       run db_Close E None;
       ret None
     else writeDB E None dbPath StdoutWriter) w = Panic msg w'.
Proof.
  unfold_io. destruct (isTerminal E os_Stdout); repeat io_step; eauto.
Qed.

(** [OutputDB] to a pipe when nothing fails. *)
Lemma OutputDB_piped_ok (d : sqlDB) (w : World) (b b3 : bytes) :
  isTerminal E os_Stdout = false →
  db_id d ∈ open_dbs w →
  fs w !! dsn d = Some b →
  eng_close E b = (None, b3) →
  os_open_err E = None →
  (∀ n, stdout_room w = Some n → (length b3 <= n)%nat) →
  ∃ w', OutputDB E (Some d) (dsn d) w = Ret None w' ∧
        stdout w' = stdout w ++ b3 ∧
        fs w' = delete (dsn d) (fs w).
Proof.
  intros Ht Ho Hf Hc Hopen Hroom. unfold_io. rewrite Ht, Hopen.
  rewrite (bool_decide_eq_true_2 _ Ho). repeat io_step.
  repeat first [rewrite Hf | rewrite Hc | progress io_step].
  destruct (stdout_room w) as [n|] eqn:Hr; repeat io_step.
  - specialize (Hroom n eq_refl). apply Nat.leb_le in Hroom.
    rewrite Hroom. repeat io_step.
    eexists. split; [reflexivity|]. world_fields. split; [reflexivity|].
    now rewrite delete_insert_eq.
  - eexists. split; [reflexivity|]. world_fields. split; [reflexivity|].
    now rewrite delete_insert_eq.
Qed.

End EmitFacts.

(** C3: however [OutputDB] ends, the backing store is gone afterwards: on
    the terminal and on the pipe verdict, when the write succeeds and when
    closing, reopening or copying fails.  It never ends the process, and it
    panics only on a nil handle (the deferred removal runs then too). *)
Theorem OutputDB_removes_store (E : Env) (db : option sqlDB) (dbPath : string)
    (w : World) :
  match OutputDB E db dbPath w with
  | Ret _ w' => fs w' !! dbPath = None
  | Panic _ w' => db = None ∧ fs w' !! dbPath = None
  | Exit _ _ => False
  end.
Proof.
  unfold OutputDB.
  match goal with
  | |- context [defer _ ?body w] =>
      pose proof (defer_Remove body dbPath w) as H
  end.
  destruct db as [d|].
  - destruct (OutputDB_body_returns E d dbPath w) as (r & w1 & Hb).
    rewrite Hb in H. destruct (defer _ _ w); tauto.
  - destruct (OutputDB_body_nil E dbPath w) as (msg & w1 & Hb).
    rewrite Hb in H. destruct (defer _ _ w); tauto.
Qed.

(** C4: with standard output classified as a terminal, [OutputDB] on a
    handle writes nothing to standard output, writes exactly the two
    advisory lines to standard error, closes the handle, removes the store
    and returns no error. *)
Theorem OutputDB_at_terminal (E : Env) (d : sqlDB) (dbPath : string)
    (w : World) :
  isTerminal E os_Stdout = true →
  ∃ w', OutputDB E (Some d) dbPath w = Ret None w' ∧
        stdout w' = stdout w ∧
        stdout_room w' = stdout_room w ∧
        stderr w'
        = stderr w
          ++ ["stdout is a terminal, skipping database output" +:+ newline;
              "pipe to a file or another component to capture the database"
              +:+ newline] ∧
        (db_id d ∉ open_dbs w') ∧
        fs w' !! dbPath = None.
Proof.
  intros Ht. unfold OutputDB. rewrite Ht.
  destruct (terminal_branch E d w) as (w1 & Hb & Hout & Hroom & Herr & Hcl).
  destruct (defer_Remove_ret _ dbPath _ _ _ Hb)
    as (w' & -> & Hfs & Ho' & Hout' & Hroom' & Herr').
  exists w'. split; [reflexivity|].
  rewrite Hout', Hroom', Herr', Ho', Hfs.
  repeat split; try assumption. apply lookup_delete_eq.
Qed.

(** ** Acquire followed by Emit *)


(** ** The theorems at work *)



Lemma OpenDB_failure_witness :
  let copy_fails := OpenDB Catalog.piped (Catalog.start_broken [x53; x51]) in
  let open_fails := OpenDB Catalog.no_driver (Catalog.start [x53; x51]) in
  let ping_fails := OpenDB Catalog.unreachable (Catalog.start [x53; x51]) in
  let schema_fails := OpenDB Catalog.failing (Catalog.start []) in
  (copy_fails
   = Ret (None, EmptyString, Some "reading db from stdin: unexpected EOF")
         (world_of copy_fails)
   ∧ fs (world_of copy_fails) = fs (Catalog.start_broken [x53; x51])) ∧
  (open_fails
   = Ret (None, EmptyString, Some "opening db: unknown driver")
         (world_of open_fails)
   ∧ fs (world_of open_fails) = fs (Catalog.start [x53; x51])) ∧
  (ping_fails
   = Ret (None, EmptyString, Some "pinging db: unable to open database file")
         (world_of ping_fails)
   ∧ fs (world_of ping_fails) = fs (Catalog.start [x53; x51])) ∧
  (schema_fails
   = Ret (None, EmptyString,
          Some ("schema exec " +:+ Catalog.quote (head60 Schema.create_scripts)
                +:+ ": disk I/O error"))
         (world_of schema_fails)
   ∧ fs (world_of schema_fails) = fs (Catalog.start [])).
Proof.
  cbv zeta.
  assert (OpenDB Catalog.piped (Catalog.start_broken [x53; x51])
          = Ret (None, EmptyString,
                 Some "reading db from stdin: unexpected EOF")
                (world_of (OpenDB Catalog.piped
                             (Catalog.start_broken [x53; x51])))) as H1
    by (vm_compute; reflexivity).
  assert (OpenDB Catalog.no_driver (Catalog.start [x53; x51])
          = Ret (None, EmptyString, Some "opening db: unknown driver")
                (world_of (OpenDB Catalog.no_driver
                             (Catalog.start [x53; x51])))) as H2
    by (vm_compute; reflexivity).
  assert (OpenDB Catalog.unreachable (Catalog.start [x53; x51])
          = Ret (None, EmptyString,
                 Some "pinging db: unable to open database file")
                (world_of (OpenDB Catalog.unreachable
                             (Catalog.start [x53; x51])))) as H3
    by (vm_compute; reflexivity).
  assert (OpenDB Catalog.failing (Catalog.start [])
          = Ret (None, EmptyString,
                 Some ("schema exec "
                       +:+ Catalog.quote (head60 Schema.create_scripts)
                       +:+ ": disk I/O error"))
                (world_of (OpenDB Catalog.failing (Catalog.start [])))) as H4
    by (vm_compute; reflexivity).
  exact (conj (conj H1 (proj1 (proj2 (OpenDB_failure_leaves_no_store _ _)
                                       _ _ _ _ H1)))
         (conj (conj H2 (proj1 (proj2 (OpenDB_failure_leaves_no_store _ _)
                                       _ _ _ _ H2)))
         (conj (conj H3 (proj1 (proj2 (OpenDB_failure_leaves_no_store _ _)
                                       _ _ _ _ H3)))
               (conj H4 (proj1 (proj2 (OpenDB_failure_leaves_no_store _ _)
                                       _ _ _ _ H4)))))).
Defined.

Lemma OutputDB_at_terminal_witness :
  let E := Catalog.at_terminal in
  let w := world_of (OpenDB E (Catalog.start [])) in
  isTerminal E os_Stdout = true ∧
  ∃ w', OutputDB E (Some Catalog.handle) Catalog.store_path w = Ret None w' ∧
        stdout w' = stdout w ∧
        stdout_room w' = stdout_room w ∧
        stderr w'
        = stderr w
          ++ ["stdout is a terminal, skipping database output" +:+ newline;
              "pipe to a file or another component to capture the database"
              +:+ newline] ∧
        (db_id Catalog.handle ∉ open_dbs w') ∧
        fs w' !! Catalog.store_path = None.
Proof.
  cbv zeta.
  assert (isTerminal Catalog.at_terminal os_Stdout = true) as Ht
    by (vm_compute; reflexivity).
  exact (conj Ht (OutputDB_at_terminal Catalog.at_terminal Catalog.handle
                    Catalog.store_path
                    (world_of (OpenDB Catalog.at_terminal (Catalog.start [])))
                    Ht)).
Defined.

Lemma OpenDB_at_terminal_witness :
  let E := Catalog.at_terminal in
  let w := Catalog.start [x53; x51; x4c] in
  isTerminal E os_Stdin = true ∧
  stdin_data (world_of (OpenDB E w)) = stdin_data w ∧
  stdin_reads (world_of (OpenDB E w)) = stdin_reads w ∧
  ∃ b0 b, eng_ping E [] = (None, b0) ∧
          run_stmts E Schema.stmts b0 = Some b ∧
          fs (world_of (OpenDB E w)) !! Catalog.store_path = Some b ∧
          exec_log (world_of (OpenDB E w))
          = exec_log w ++ logged (new_handle E w) Schema.stmts.
Proof.
  cbv zeta.
  assert (isTerminal Catalog.at_terminal os_Stdin = true) as Ht
    by (vm_compute; reflexivity).
  assert (OpenDB Catalog.at_terminal (Catalog.start [x53; x51; x4c])
          = Ret (Some Catalog.handle, Catalog.store_path, None)
                (world_of (OpenDB Catalog.at_terminal
                             (Catalog.start [x53; x51; x4c])))) as Hok
    by (vm_compute; reflexivity).
  pose proof (OpenDB_at_terminal Catalog.at_terminal
                (Catalog.start [x53; x51; x4c]) Ht) as (H1 & H2 & H3).
  exact (conj Ht (conj H1 (conj H2 (H3 _ _ _ Hok)))).
Defined.

(** [OutputDB] on each of its paths, in the catalog environment: the write
    succeeds; the pipe takes only five bytes; the store has vanished before
    it is reopened; the handle is nil. The store is gone every time. *)
Example OutputDB_paths :
  let E := Catalog.piped in
  let w := world_of (OpenDB E (Catalog.start [])) in
  let w5 := world_of (OpenDB E (Catalog.start_narrow [] 5)) in
  let db := Some Catalog.handle in
  let p := Catalog.store_path in
  (∃ w', OutputDB E db p w = Ret None w' ∧ fs w' = ∅) ∧
  (∃ w', OutputDB E db p w5
         = Ret (Some "writing db to stdout: short write") w' ∧ fs w' = ∅
         ∧ length (stdout w') = 5%nat) ∧
  (∃ w', OutputDB E db p (set_fs (delete p) w)
         = Ret (Some "opening db file for output: no such file or directory") w'
         ∧ fs w' = ∅) ∧
  (∃ w', OutputDB E None p w = Panic "nil pointer dereference" w' ∧ fs w' = ∅).
Proof.
  cbv zeta. split; [|split; [|split]]; eexists; vm_compute; auto.
Qed.

(** * Further properties *)

(** ** The directory scanner *)

Section ReadDirFacts.
Import TextFiles.
Context (os_ReadDir : string → list DirEntry * option error)
        (ToLower : string → string)
        (Join : string → string → string).

Lemma drop_string_app (pre suf : string) :
  drop_string (String.length pre) (pre +:+ suf) = suf.
Proof. induction pre as [|c pre IH]; [reflexivity | exact IH]. Qed.

Lemma drop_string_split (k : nat) :
  ∀ s, (k <= String.length s)%nat →
       ∃ pre, s = pre +:+ drop_string k s ∧ String.length pre = k.
Proof.
  induction k as [|k IH]; intros s Hk.
  - now exists EmptyString.
  - destruct s as [|c s]; cbn in Hk; [lia|].
    destruct (IH s ltac:(lia)) as (pre & Hs & Hl).
    exists (String c pre). cbn [drop_string String.length].
    split; [|now rewrite Hl].
    change (String c s = String c (pre +:+ drop_string k s)). now rewrite <- Hs.
Qed.

(** [HasSuffix] holds exactly of the strings that end in the suffix. *)
Lemma HasSuffix_iff (s suffix : string) :
  HasSuffix s suffix = true ↔ ∃ pre, s = pre +:+ suffix.
Proof.
  unfold HasSuffix. rewrite andb_true_iff, Nat.leb_le, String.eqb_eq. split.
  - intros [Hle Hd].
    destruct (drop_string_split (String.length s - String.length suffix) s
                ltac:(lia)) as (pre & Hs & _).
    exists pre. now rewrite Hd in Hs.
  - intros [pre ->]. rewrite length_append. split; [lia|].
    replace (String.length pre + String.length suffix - String.length suffix)%nat
      with (String.length pre) by lia.
    apply drop_string_app.
Qed.

Lemma scan_acc (dir suffix : string) (entries : list DirEntry) :
  ∀ results,
    scan ToLower Join dir suffix entries results
    = results ++ map (λ e, Join dir (Name e))
                     (List.filter (kept ToLower suffix) entries).
Proof.
  induction entries as [|e entries IH]; intros results; cbn [scan List.filter].
  - cbn. now rewrite app_nil_r.
  - unfold kept at 1. destruct (IsDir e); cbn [negb andb]; [apply IH|].
    destruct (HasSuffix _ _); [|apply IH].
    rewrite IH. cbn [map]. now rewrite <- app_assoc.
Qed.

(** X1: [ReadDir] fails exactly when the listing fails, with the wrapped
    error and no path; otherwise it returns, in the order of the listing,
    the joined path of every entry that is not a directory and whose
    lower-cased name ends in the lower-cased suffix, and of no other. *)
Theorem ReadDir_outcome (dir suffix : string) :
  ReadDir os_ReadDir ToLower Join dir suffix
  = match os_ReadDir dir with
    | (_, Some err) =>
        ([], Some ("reading directory " +:+ dir +:+ ": " +:+ err))
    | (entries, None) =>
        (map (λ e, Join dir (Name e))
             (List.filter (kept ToLower suffix) entries), None)
    end.
Proof.
  unfold ReadDir. destruct (os_ReadDir dir) as [entries [err|]];
    [reflexivity|]. now rewrite scan_acc.
Qed.

(** X2: a path is returned exactly when it is the joined path of a listed
    entry that is not a directory and whose lower-cased name is some prefix
    followed by the lower-cased suffix. *)
Theorem ReadDir_member (dir suffix : string) (entries : list DirEntry)
    (path : string) :
  os_ReadDir dir = (entries, None) →
  (path ∈ (ReadDir os_ReadDir ToLower Join dir suffix).1 ↔
   ∃ e, e ∈ entries ∧ IsDir e = false ∧
        (∃ pre, ToLower (Name e) = pre +:+ ToLower suffix) ∧
        path = Join dir (Name e)).
Proof.
  intros Hls. unfold ReadDir. rewrite Hls, scan_acc. cbn [fst app].
  rewrite list_elem_of_In, in_map_iff. split.
  - intros (e & <- & [Hin Hk]%filter_In). exists e.
    unfold kept in Hk. apply andb_true_iff in Hk as [Hd Hs].
    rewrite list_elem_of_In. split; [assumption|].
    split; [now destruct (IsDir e)|]. split; [now apply HasSuffix_iff|reflexivity].
  - intros (e & Hin & Hd & Hs & ->). exists e. split; [reflexivity|].
    apply filter_In. rewrite <- list_elem_of_In. split; [assumption|].
    unfold kept. rewrite Hd. cbn. now apply HasSuffix_iff.
Qed.

(** X3: with an empty suffix every regular file of the listing is returned,
    provided lower-casing the empty string gives the empty string. *)
Theorem ReadDir_empty_suffix (dir : string) (entries : list DirEntry) :
  ToLower "" = "" →
  os_ReadDir dir = (entries, None) →
  ReadDir os_ReadDir ToLower Join dir ""
  = (map (λ e, Join dir (Name e))
         (List.filter (λ e, negb (IsDir e)) entries), None).
Proof.
  intros Hlow Hls. unfold ReadDir. rewrite Hls, scan_acc. cbn [app].
  f_equal. f_equal. apply filter_ext. intros e. unfold kept. rewrite Hlow.
  replace (HasSuffix (ToLower (Name e)) "") with true; [now rewrite andb_true_r|].
  symmetry. apply HasSuffix_iff. exists (ToLower (Name e)).
  induction (ToLower (Name e)) as [|c s IH]; [reflexivity|].
  change (String c s = String c (s +:+ "")). now rewrite <- IH.
Qed.

End ReadDirFacts.

Lemma ReadDir_member_witness :
  TextFiles.listing "/audio"
  = ([ {| TextFiles.Name := "GEN_01.MP3"; TextFiles.IsDir := false |};
       {| TextFiles.Name := "README.txt"; TextFiles.IsDir := false |};
       {| TextFiles.Name := "archive.mp3"; TextFiles.IsDir := true |};
       {| TextFiles.Name := "gen_02.mp3"; TextFiles.IsDir := false |} ], None) ∧
  "/audio/GEN_01.MP3"
  ∈ (TextFiles.ReadDir TextFiles.listing TextFiles.ToLower_ascii
       TextFiles.Join_simple "/audio" ".mp3").1.
Proof.
  split; [reflexivity|].
  apply (ReadDir_member TextFiles.listing TextFiles.ToLower_ascii
           TextFiles.Join_simple "/audio" ".mp3" _ "/audio/GEN_01.MP3"
           eq_refl).
  exists {| TextFiles.Name := "GEN_01.MP3"; TextFiles.IsDir := false |}.
  split; [apply list_elem_of_here|]. split; [reflexivity|].
  split; [now exists "gen_01"|reflexivity].
Defined.

Lemma ReadDir_empty_suffix_witness :
  TextFiles.ReadDir TextFiles.listing TextFiles.ToLower_ascii
    TextFiles.Join_simple "/audio" ""
  = (["/audio/GEN_01.MP3"; "/audio/README.txt"; "/audio/gen_02.mp3"], None).
Proof.
  exact (ReadDir_empty_suffix TextFiles.listing TextFiles.ToLower_ascii
           TextFiles.Join_simple "/audio" _ eq_refl eq_refl).
Defined.

Example ReadDir_listing :
  TextFiles.ReadDir TextFiles.listing TextFiles.ToLower_ascii
    TextFiles.Join_simple "/audio" ".Mp3"
  = (["/audio/GEN_01.MP3"; "/audio/gen_02.mp3"], None) ∧
  TextFiles.ReadDir TextFiles.listing TextFiles.ToLower_ascii
    TextFiles.Join_simple "/missing" ".mp3"
  = ([], Some "reading directory /missing: no such file or directory").
Proof. split; vm_compute; reflexivity. Qed.

(** ** The logger over a handle *)

Section LoggerMore.
Context (E : Env) {any : Type} (Sprint : any → string).

(** One [Exec] with arguments: through an open handle the engine runs on
    the store; through a closed one it is not reached. Either way the call
    is logged and returns. *)
Lemma db_Exec_some (d : sqlDB) (s : string) (args : list string) (w : World) :
  db_Exec E (Some d) s args w
  = let w1 := set_exec_log (exec_log w ++ [(db_id d, s, args)]) w in
    if bool_decide (db_id d ∈ open_dbs w)
    then Ret (eng_exec E s args (store d w)).1
             (set_fs (insert (dsn d) (eng_exec E s args (store d w)).2) w1)
    else Ret (Some "sql: database is closed") w1.
Proof.
  unfold db_Exec, on_store, is_open, bind, modify, get, ret.
  cbn [open_dbs fs set_exec_log]. cbv zeta.
  destruct (bool_decide (db_id d ∈ open_dbs w)); [|reflexivity].
  cbn [open_dbs fs set_exec_log]. fold (store d w).
  now destruct (eng_exec E s args (store d w)).
Qed.

(** [insertLog] over a handle: one [INSERT] with the component, the level
    and the message; a failed insert becomes one warning on standard
    error and nothing else. *)
Lemma insertLog_some (d : sqlDB) (tag level message : string)
    (w : World) :
  ∃ w',
    insertLog E {| db := Some d; component := tag |} level message w
    = Ret tt w' ∧
    exec_log w'
    = exec_log w ++ [(db_id d, insert_stmt, [tag; level; message])] ∧
    stderr w'
    = stderr w ++ match insert_verdict E d tag level message w with
                  | None => []
                  | Some e => [warn_line tag e]
                  end ∧
    open_dbs w' = open_dbs w ∧ stdout w' = stdout w ∧
    (∀ q, q ≠ dsn d → fs w' !! q = fs w !! q).
Proof.
  unfold insertLog, bind, insert_verdict. cbn [db component].
  fold insert_stmt. rewrite db_Exec_some. cbv zeta.
  destruct (bool_decide (db_id d ∈ open_dbs w)).
  - destruct (eng_exec E insert_stmt [tag; level; message] (store d w))
      as [[e|] b]; cbn [fst snd]; unfold Fprintf_stderr, modify, ret;
      (eexists; split; [reflexivity|]); world_fields;
      rewrite ?app_nil_r;
      (split; [reflexivity|]); (split; [reflexivity|]);
      (split; [reflexivity|]); (split; [reflexivity|]);
      intros q Hq; now rewrite lookup_insert_ne by congruence.
  - unfold Fprintf_stderr, modify. eexists. split; [reflexivity|].
    world_fields. repeat split; reflexivity.
Qed.

(** X4: over a handle [Info] and [Warn] always return; each hands the
    engine exactly one [INSERT] carrying the component, its level and the
    arguments joined by blanks; standard error gets nothing when the insert
    succeeds and exactly one warning line naming the error when it fails
    (a closed handle included). *)
Theorem Info_Warn_over_handle (d : sqlDB) (component : string)
    (args : list any) (w : World) :
  let l := NewLogger (Some d) component in
  let msg := joinArgs Sprint args in
  (∃ w', Info E Sprint l args w = Ret tt w' ∧
         exec_log w'
         = exec_log w ++ [(db_id d, insert_stmt, [component; "INFO"; msg])] ∧
         stderr w'
         = stderr w ++ match insert_verdict E d component "INFO" msg w with
                       | None => []
                       | Some e => [warn_line component e]
                       end ∧
         stdout w' = stdout w) ∧
  (∃ w', Warn E Sprint l args w = Ret tt w' ∧
         exec_log w'
         = exec_log w ++ [(db_id d, insert_stmt, [component; "WARN"; msg])] ∧
         stderr w'
         = stderr w ++ match insert_verdict E d component "WARN" msg w with
                       | None => []
                       | Some e => [warn_line component e]
                       end ∧
         stdout w' = stdout w).
Proof.
  cbv zeta. unfold Info, Warn, NewLogger. split.
  - destruct (insertLog_some d component "INFO" (joinArgs Sprint args) w)
      as (w' & H & Hl & He & _ & Ho & _). eauto 10.
  - destruct (insertLog_some d component "WARN" (joinArgs Sprint args) w)
      as (w' & H & Hl & He & _ & Ho & _). eauto 10.
Qed.

Lemma insertLog_returns (l : Logger) (level message : string) (w : World) :
  ∃ w', insertLog E l level message w = Ret tt w' ∧ stdout w' = stdout w.
Proof.
  destruct l as [[d|] component].
  - destruct (insertLog_some d component level message w)
      as (w' & H & _ & _ & _ & Ho & _). eauto.
  - exists w. split; reflexivity.
Qed.

(** X5: [Error] always returns, whatever the handle and whether or not the
    insert succeeds, and its line is the last thing written to standard
    error; [Fatal] never returns: it does what [Error] does and then ends
    the process with status 1. Neither writes to standard output. *)
Theorem Error_returns_Fatal_exits (l : Logger) (args : list any) (w : World) :
  ∃ w1 w',
    insertLog E l "ERROR" (joinArgs Sprint args) w = Ret tt w1 ∧
    Error E Sprint l args w = Ret tt w' ∧
    stderr w'
    = stderr w1 ++ [error_line (component l) (joinArgs Sprint args)] ∧
    stdout w' = stdout w ∧
    Fatal E Sprint l args w = Exit 1 w'.
Proof.
  destruct (insertLog_returns l "ERROR" (joinArgs Sprint args) w)
    as (w1 & H1 & Ho).
  exists w1, (set_stderr
                (stderr w1 ++ [error_line (component l) (joinArgs Sprint args)])
                w1).
  split; [exact H1|].
  assert (Error E Sprint l args w
          = Ret tt (set_stderr
                      (stderr w1
                       ++ [error_line (component l) (joinArgs Sprint args)])
                      w1)) as He.
  { unfold Error, bind. cbv zeta. now rewrite H1. }
  split; [exact He|]. split; [reflexivity|]. split; [exact Ho|].
  unfold Fatal, bind. now rewrite He.
Qed.

Lemma append_assoc (a b c : string) : (a +:+ b) +:+ c = a +:+ b +:+ c.
Proof.
  induction a as [|x a IH]; [reflexivity|].
  change (String x ((a +:+ b) +:+ c) = String x (a +:+ b +:+ c)).
  now rewrite IH.
Qed.

(** [strings.Join] of a list put together from two non-empty lists. *)
Lemma strings_Join_app (xs ys : list string) (sep : string) :
  xs ≠ [] → ys ≠ [] →
  strings_Join (xs ++ ys) sep
  = strings_Join xs sep +:+ sep +:+ strings_Join ys sep.
Proof.
  intros Hx Hy. induction xs as [|x xs IH]; [congruence|].
  destruct xs as [|x' xs].
  - cbn [app]. destruct ys as [|y ys]; [congruence|]. reflexivity.
  - specialize (IH ltac:(discriminate)).
    change (x +:+ sep +:+ strings_Join ((x' :: xs) ++ ys) sep
            = (x +:+ sep +:+ strings_Join (x' :: xs) sep)
              +:+ sep +:+ strings_Join ys sep).
    now rewrite IH, !append_assoc.
Qed.

(** X6: [joinArgs] puts one blank between the printed arguments: no
    arguments give the empty message, one argument its printed form, and
    the message of two non-empty argument lists put together is the two
    messages with one blank between them. *)
Theorem joinArgs_app (xs ys : list any) :
  joinArgs Sprint [] = "" ∧
  (∀ a, joinArgs Sprint [a] = Sprint a) ∧
  (xs ≠ [] → ys ≠ [] →
   joinArgs Sprint (xs ++ ys)
   = joinArgs Sprint xs +:+ " " +:+ joinArgs Sprint ys).
Proof.
  split; [reflexivity|]. split; [reflexivity|].
  intros Hx Hy. unfold joinArgs. rewrite map_app.
  apply strings_Join_app; now destruct xs, ys.
Qed.

End LoggerMore.

Lemma joinArgs_app_witness :
  ["loaded"; "42"] ≠ [] ∧ ["rows"] ≠ [] ∧
  joinArgs id (["loaded"; "42"] ++ ["rows"])
  = joinArgs id ["loaded"; "42"] +:+ " " +:+ joinArgs id ["rows"].
Proof.
  split; [discriminate|]. split; [discriminate|].
  apply (proj2 (proj2 (joinArgs_app id ["loaded"; "42"] ["rows"])));
    discriminate.
Defined.

(** The logger over the handle of a fresh store: the first [Info] is
    refused (the catalog engine knows no [INSERT]) and shows as a warning;
    [Fatal] ends the process. *)
Example logger_over_catalog :
  let E := Catalog.piped in
  let w := world_of (OpenDB E (Catalog.start [])) in
  let l := NewLogger (Some Catalog.handle) "loader" in
  stderr (world_of (Info E id l ["loaded"; "42"; "rows"] w))
  = [warn_line "loader" "syntax error"] ∧
  last (exec_log (world_of (Info E id l ["loaded"; "42"; "rows"] w)))
  = Some (0%nat, insert_stmt, ["loader"; "INFO"; "loaded 42 rows"]) ∧
  (∃ w', Fatal E id l ["disk"; "full"] w = Exit 1 w' ∧
         stderr w' = [warn_line "loader" "syntax error";
                      error_line "loader" "disk full"]).
Proof.
  cbv zeta. split; [vm_compute; reflexivity|]. split; [vm_compute; reflexivity|].
  eexists. split; vm_compute; reflexivity.
Qed.

(** ** Stream classification *)

Lemma land_char_device (mode : Z) :
  (Z.land mode ModeCharDevice =? 0) = negb (Z.testbit mode 21).
Proof.
  unfold ModeCharDevice. rewrite Z.shiftl_1_l.
  destruct (Z.testbit mode 21) eqn:Hb; cbn [negb].
  - apply Z.eqb_neq. intros H0.
    assert (Z.testbit (Z.land mode (2 ^ 21)) 21 = false) as Hf
      by (rewrite H0; apply Z.bits_0).
    rewrite Z.land_spec, Hb, Z.pow2_bits_true in Hf by lia. discriminate.
  - apply Z.eqb_eq. apply Z.bits_inj'. intros n Hn.
    rewrite Z.land_spec, Z.bits_0, Z.pow2_bits_eqb by lia.
    destruct (Z.eqb_spec 21 n) as [<-|_];
      [now rewrite Hb | apply andb_false_r].
Qed.

(** X7: a stream is classified as a terminal exactly when [Stat] succeeds
    and bit 21 (the character-device bit) of the mode is set; no other mode
    bit matters, and a failing [Stat] classifies as not a terminal. *)
Theorem isTerminal_iff_char_device_bit (E : Env) (f : osFile) :
  isTerminal E f = true ↔ ∃ mode, stat E f = Some mode ∧ Z.testbit mode 21 = true.
Proof.
  unfold isTerminal. destruct (stat E f) as [mode|].
  - rewrite land_char_device, negb_involutive. split.
    + intros H. eauto.
    + now intros (m & [= <-] & H).
  - split; [discriminate | now intros (m & H & _)].
Qed.

Lemma isTerminal_witness :
  stat Catalog.at_terminal os_Stdin = Some Catalog.tty_mode ∧
  Z.testbit Catalog.tty_mode 21 = true ∧
  isTerminal Catalog.at_terminal os_Stdin = true.
Proof.
  split; [reflexivity|]. split; [vm_compute; reflexivity|].
  apply (proj2 (isTerminal_iff_char_device_bit Catalog.at_terminal os_Stdin)).
  exists Catalog.tty_mode. split; [reflexivity | vm_compute; reflexivity].
Defined.

(** ** The zero-padding helper, continued *)

Section ZeroFillMore.
Import Utility.

Lemma ZeroFill_cases (a : string) (size : Z) :
  (len a >= size ∧ ZeroFill a size = Val a)
  ∨ (0 < size - len a <= 7
     ∧ ZeroFill a size = Val (zeros (Z.to_nat (size - len a)) +:+ a))
  ∨ (7 < size - len a ∧ ZeroFill a size = Panics "slice bounds out of range").
Proof.
  unfold ZeroFill, slice_to.
  destruct (Z.geb_spec (len a) size) as [Hge|Hlt]; [left; split; [lia|reflexivity]|].
  right. replace (len "0000000") with 7 by reflexivity.
  destruct (Z.leb_spec 0 (size - len a)) as [_|?]; [|lia].
  destruct (Z.leb_spec (size - len a) 7) as [Hle|Hgt]; cbn [andb].
  - left. split; [lia|]. now rewrite seven_zeros_prefix by lia.
  - right. split; [lia|reflexivity].
Qed.

(** X8: whenever [ZeroFill] returns, the result is [max(len(a), size)]
    characters long, and padding the result again to the same size returns
    it unchanged. *)
Theorem ZeroFill_length_and_idempotent (a : string) (size : Z) (r : string) :
  ZeroFill a size = Val r →
  len r = Z.max (len a) size ∧ ZeroFill r size = Val r.
Proof.
  intros H.
  destruct (ZeroFill_cases a size) as [[Hge Hz]|[[Hgap Hz]|[Hgap Hz]]];
    rewrite Hz in H; [| |discriminate].
  - injection H as <-. split; [lia|exact Hz].
  - injection H as <-.
    assert (len (zeros (Z.to_nat (size - len a)) +:+ a) = size) as Hl.
    { unfold len in *. rewrite length_append, length_zeros. lia. }
    split; [lia|].
    unfold ZeroFill at 1. rewrite Hl.
    destruct (Z.geb_spec size size); [reflexivity|lia].
Qed.

Lemma ZeroFill_length_and_idempotent_witness :
  ZeroFill "7" 3 = Val "007" ∧
  len "007" = Z.max (len "7") 3 ∧ ZeroFill "007" 3 = Val "007".
Proof.
  exact (conj eq_refl (ZeroFill_length_and_idempotent "7" 3 "007" eq_refl)).
Defined.

End ZeroFillMore.

(** ** Discard *)

Section DiscardFacts.
Context (E : Env).

(** [db.Close()] on a handle, case by case. *)
Lemma db_Close_some (d : sqlDB) (w : World) :
  db_Close E (Some d) w
  = if bool_decide (db_id d ∈ open_dbs w) then
      let w1 := set_dbs (next_db w) (open_dbs w ∖ {[ db_id d ]}) w in
      match fs w !! dsn d with
      | Some b =>
          Ret (eng_close E b).1 (set_fs (insert (dsn d) (eng_close E b).2) w1)
      | None => Ret None w1
      end
    else Ret None w.
Proof.
  unfold_io. destruct (bool_decide (db_id d ∈ open_dbs w)); [|reflexivity].
  destruct (fs w !! dsn d) as [b|] eqn:Hs;
    repeat first [rewrite Hs | progress io_step]; [|reflexivity].
  now destruct (eng_close E b).
Qed.

(** What [db.Close()] on a handle leaves behind. *)
Lemma db_Close_frame (d : sqlDB) (w : World) :
  ∃ r w', db_Close E (Some d) w = Ret r w' ∧
          (db_id d ∉ open_dbs w') ∧ open_dbs w' ⊆ open_dbs w ∧
          stdout w' = stdout w ∧ stdout_room w' = stdout_room w ∧
          stderr w' = stderr w ∧ exec_log w' = exec_log w ∧
          (∀ q, q ≠ dsn d → fs w' !! q = fs w !! q).
Proof.
  rewrite db_Close_some.
  destruct (decide (db_id d ∈ open_dbs w)) as [Ho|Hc].
  - rewrite (bool_decide_eq_true_2 _ Ho). cbv zeta.
    destruct (fs w !! dsn d) as [b|]; do 2 eexists;
      (split; [reflexivity|]); world_fields;
      (split; [apply not_elem_of_difference; right;
               now apply elem_of_singleton|]);
      (split; [now apply subseteq_difference_l|]);
      repeat (split; [reflexivity|]); intros q Hq;
      [now rewrite lookup_insert_ne by congruence | reflexivity].
  - rewrite (bool_decide_eq_false_2 _ Hc). do 2 eexists.
    split; [reflexivity|]. split; [exact Hc|]. split; [reflexivity|].
    repeat (split; [reflexivity|]). reflexivity.
Qed.

(** What [os.Remove] leaves behind. *)
Lemma os_Remove_frame (name : string) (w : World) :
  ∃ r w', os_Remove name w = Ret r w' ∧
          fs w' = delete name (fs w) ∧ open_dbs w' = open_dbs w ∧
          stdout w' = stdout w ∧ stdout_room w' = stdout_room w ∧
          stderr w' = stderr w ∧ exec_log w' = exec_log w.
Proof.
  unfold os_Remove, bind, ret, get, modify.
  destruct (fs w !! name) eqn:Hf.
  - rewrite bool_decide_eq_true_2 by eauto. do 2 eexists.
    split; [reflexivity|]. world_fields. auto 10.
  - rewrite bool_decide_eq_false_2 by (apply is_Some_None). do 2 eexists.
    split; [reflexivity|]. rewrite delete_id by assumption. auto 10.
Qed.

End DiscardFacts.

(** X9: [CloseDB] on a handle always returns, with the handle closed and the
    store removed; it writes nothing to standard output or standard error,
    hands no statement to the engine, and touches no file other than the
    store and the file the handle is connected to. On a nil handle it
    panics at [db.Close()], before the removal: the world is unchanged and
    the store is still there. *)
Theorem CloseDB_discards (E : Env) (d : sqlDB) (dbPath : string) (w : World) :
  (∃ w', CloseDB E (Some d) dbPath w = Ret tt w' ∧
         fs w' !! dbPath = None ∧
         (db_id d ∉ open_dbs w') ∧
         stdout w' = stdout w ∧ stderr w' = stderr w ∧
         exec_log w' = exec_log w ∧
         (∀ q, q ≠ dbPath → q ≠ dsn d → fs w' !! q = fs w !! q)) ∧
  CloseDB E None dbPath w = Panic "nil pointer dereference" w.
Proof.
  split; [|reflexivity].
  unfold CloseDB, bind.
  destruct (db_Close_frame E d w)
    as (r & w1 & -> & Hcl & _ & Ho & _ & He & Hl & Hfs).
  destruct (os_Remove_frame dbPath w1)
    as (r' & w2 & -> & Hfs2 & Hd2 & Ho2 & _ & He2 & Hl2).
  exists w2. split; [reflexivity|].
  rewrite Hfs2, Hd2, Ho2, He2, Hl2, Ho, He, Hl.
  split; [apply lookup_delete_eq|]. split; [exact Hcl|].
  repeat (split; [reflexivity|]). intros q H1 H2.
  rewrite lookup_delete_ne by congruence. now apply Hfs.
Qed.

(** ** The bootstrap, continued *)

Section BootstrapMore.
Context (E : Env).

(** The statements [run_until] hands to the engine are a leading part of
    the list: all of it when nothing fails, and never none of a non-empty
    list. *)
Lemma run_until_done (l : list string) :
  ∀ b res b' done,
    run_until E l b = (res, b', done) →
    ∃ post, l = done ++ post ∧ (res = None → post = []) ∧ (l ≠ [] → done ≠ []).
Proof.
  induction l as [|s l IH]; intros b res b' done; cbn [run_until].
  - intros [= <- _ <-]. now exists [].
  - destruct (eng_exec E s [] b) as [[e|] b1].
    + intros [= <- _ <-]. exists l. repeat split; discriminate.
    + destruct (run_until E l b1) as [[res' b2] done'] eqn:Hr.
      intros [= <- _ <-]. destruct (IH _ _ _ _ Hr) as (post & -> & Hn & _).
      exists post. repeat split; [exact Hn | discriminate].
Qed.

(** Every way [createSchema] on a handle can end. *)
Lemma createSchema_cases (d : sqlDB) (w : World) :
  ∃ r w' done post,
    createSchema E (Some d) w = Ret r w' ∧
    Schema.stmts = done ++ post ∧ done ≠ [] ∧ (r = None → post = []) ∧
    exec_log w' = exec_log w ++ logged d done ∧
    open_dbs w' = open_dbs w ∧ stdin_data w' = stdin_data w ∧
    stdout w' = stdout w ∧ stderr w' = stderr w ∧
    (∀ q, q ≠ dsn d → fs w' !! q = fs w !! q).
Proof.
  unfold createSchema.
  destruct (decide (db_id d ∈ open_dbs w)) as [Ho|Hc].
  - unfold Schema.stmts at 1. rewrite exec_each_open by exact Ho.
    fold Schema.stmts.
    destruct (run_until E Schema.stmts (store d w)) as [[res b] done] eqn:Hr.
    destruct (run_until_done _ _ _ _ _ Hr) as (post & Hl & Hn & Hne).
    exists (schema_error E res), (after_exec d done b w), done, post.
    split; [reflexivity|]. split; [exact Hl|].
    split; [apply Hne; discriminate|].
    split; [intros Hnone; apply Hn; now destruct res as [[? ?]|]|].
    unfold after_exec. world_fields. repeat (split; [reflexivity|]).
    intros q Hq. now rewrite lookup_insert_ne by congruence.
  - unfold Schema.stmts at 1. rewrite exec_each_cons, db_Exec_closed by exact Hc.
    do 2 eexists. exists [Schema.pragma_temp_store], (tail Schema.stmts).
    split; [reflexivity|]. split; [reflexivity|]. split; [discriminate|].
    split; [discriminate|]. world_fields. repeat (split; [reflexivity|]).
    reflexivity.
Qed.

(** X10: [createSchema] on a handle always returns. It hands the engine a
    non-empty leading part of the ten statements, all ten when it returns
    no error; it leaves the handle's open state, the input, standard output
    and standard error as they are and touches no file but the store. *)
Theorem createSchema_frame (d : sqlDB) (w : World) :
  ∃ r w' done post,
    createSchema E (Some d) w = Ret r w' ∧
    Schema.stmts = done ++ post ∧ done ≠ [] ∧ (r = None → post = []) ∧
    exec_log w' = exec_log w ++ logged d done ∧
    open_dbs w' = open_dbs w ∧ stdin_data w' = stdin_data w ∧
    stdout w' = stdout w ∧ stderr w' = stderr w ∧
    (∀ q, q ≠ dsn d → fs w' !! q = fs w !! q).
Proof. exact (createSchema_cases d w). Qed.

(** X11: through a closed handle [createSchema] fails at its first statement
    with the closed-database error; the engine is not reached and no file
    changes. On a nil handle it panics before anything happens. *)
Theorem createSchema_closed_or_nil (d : sqlDB) (w : World) :
  (db_id d ∉ open_dbs w →
   createSchema E (Some d) w
   = Ret (Some ("schema exec " +:+ fmt_q E (head60 Schema.pragma_temp_store)
                +:+ ": sql: database is closed"))
         (set_exec_log (exec_log w ++ logged d [Schema.pragma_temp_store]) w)) ∧
  createSchema E None w = Panic "nil pointer dereference" w.
Proof.
  split; [|reflexivity]. intros Hc. unfold createSchema, Schema.stmts.
  now rewrite exec_each_cons, db_Exec_closed by exact Hc.
Qed.

End BootstrapMore.

Lemma createSchema_closed_witness :
  let w := world_of (CloseDB Catalog.piped (Some Catalog.handle)
                       Catalog.store_path
                       (world_of (OpenDB Catalog.piped (Catalog.start [])))) in
  (db_id Catalog.handle ∉ open_dbs w) ∧
  createSchema Catalog.piped (Some Catalog.handle) w
  = Ret (Some ("schema exec "
               +:+ fmt_q Catalog.piped (head60 Schema.pragma_temp_store)
               +:+ ": sql: database is closed"))
        (set_exec_log
           (exec_log w ++ logged Catalog.handle [Schema.pragma_temp_store]) w).
Proof.
  cbv zeta.
  assert (db_id Catalog.handle
          ∉ open_dbs (world_of (CloseDB Catalog.piped (Some Catalog.handle)
                                  Catalog.store_path
                                  (world_of (OpenDB Catalog.piped
                                               (Catalog.start []))))))
    as Hc by (vm_compute; set_solver).
  exact (conj Hc (proj1 (createSchema_closed_or_nil Catalog.piped
                           Catalog.handle _) Hc)).
Defined.

(** ** Emit, continued *)

Section WriteFacts.
Context (E : Env).

(** Every way [writeDB] on a handle can end. *)
Lemma writeDB_cases (d : sqlDB) (dbPath : string) (w : World) :
  ∃ r w',
    writeDB E (Some d) dbPath StdoutWriter w = Ret r w' ∧
    (db_id d ∉ open_dbs w') ∧ stderr w' = stderr w ∧
    exec_log w' = exec_log w ∧
    (∀ q, q ≠ dsn d → fs w' !! q = fs w !! q) ∧
    match r with
    | None =>
        ∃ content, fs w' !! dbPath = Some content ∧
                   stdout w' = stdout w ++ content
    | Some e =>
        stdout w' = stdout w ∨
        ∃ n content,
          stdout_room w = Some n ∧ fs w' !! dbPath = Some content ∧
          (n < length content)%nat ∧
          stdout w' = stdout w ++ take n content ∧
          e = "writing db to stdout: short write"
    end.
Proof.
  unfold writeDB, bind.
  destruct (db_Close_frame E d w)
    as (r1 & w1 & -> & Hcl & _ & Ho & Hroom & He & Hl & Hfs).
  rewrite <- Ho, <- Hroom, <- He, <- Hl.
  destruct r1 as [e1|].
  { do 2 eexists. split; [reflexivity|]. repeat (split; [assumption || reflexivity|]).
    now left. }
  unfold_io. destruct (os_open_err E) as [e2|].
  { do 2 eexists. split; [reflexivity|]. repeat (split; [assumption || reflexivity|]).
    now left. }
  destruct (fs w1 !! dbPath) as [content|] eqn:Hp;
    repeat first [rewrite Hp | progress io_step].
  2:{ do 2 eexists. split; [reflexivity|].
      repeat (split; [assumption || reflexivity|]). now left. }
  destruct (stdout_room w1) as [n|] eqn:Hr;
    repeat first [rewrite Hp | progress io_step].
  - destruct (Nat.leb_spec (length content) n) as [Hle|Hgt];
      repeat first [rewrite Hp | progress io_step];
      (do 2 eexists; split; [reflexivity|]); world_fields;
      repeat (split; [assumption || reflexivity|]).
    + exists content. split; [exact Hp|reflexivity].
    + right. exists n, content. repeat (split; [assumption || reflexivity|]).
      reflexivity.
  - do 2 eexists. split; [reflexivity|]. world_fields.
    repeat (split; [assumption || reflexivity|]).
    exists content. split; [exact Hp|reflexivity].
Qed.

End WriteFacts.

(** X12: when [writeDB] on a handle returns no error, standard output has
    received, after what it held, exactly the bytes of the store file as
    closing the handle left it; the handle is closed, and the store file is
    still there (removing it is [OutputDB]'s part). *)
Theorem writeDB_streams_the_store (E : Env) (d : sqlDB) (dbPath : string)
    (w w' : World) :
  writeDB E (Some d) dbPath StdoutWriter w = Ret None w' →
  ∃ content, fs w' !! dbPath = Some content ∧
             stdout w' = stdout w ++ content ∧
             (db_id d ∉ open_dbs w') ∧ stderr w' = stderr w.
Proof.
  intros H.
  destruct (writeDB_cases E d dbPath w)
    as (r & w2 & H2 & Hcl & He & _ & _ & Hr).
  rewrite H in H2. injection H2 as <- <-.
  destruct Hr as (content & Hp & Ho). eauto 10.
Qed.

(** X13: when [writeDB] on a handle returns an error, the handle is closed
    all the same, and standard output has received either nothing (closing
    or reopening failed) or, when the writer ran out of room, the leading
    bytes of the store that fitted and not all of it. *)
Theorem writeDB_failure_writes_prefix (E : Env) (d : sqlDB) (dbPath : string)
    (w w' : World) (e : error) :
  writeDB E (Some d) dbPath StdoutWriter w = Ret (Some e) w' →
  (db_id d ∉ open_dbs w') ∧
  (stdout w' = stdout w ∨
   ∃ n content,
     stdout_room w = Some n ∧ fs w' !! dbPath = Some content ∧
     (n < length content)%nat ∧
     stdout w' = stdout w ++ take n content ∧
     e = "writing db to stdout: short write").
Proof.
  intros H.
  destruct (writeDB_cases E d dbPath w)
    as (r & w2 & H2 & Hcl & He & _ & _ & Hr).
  rewrite H in H2. injection H2 as <- <-. auto.
Qed.

Lemma writeDB_streams_the_store_witness :
  let E := Catalog.piped in
  let w := world_of (OpenDB E (Catalog.start [])) in
  let w' := world_of (writeDB E (Some Catalog.handle) Catalog.store_path
                        StdoutWriter w) in
  writeDB E (Some Catalog.handle) Catalog.store_path StdoutWriter w
  = Ret None w' ∧
  ∃ content, fs w' !! Catalog.store_path = Some content ∧
             stdout w' = stdout w ++ content ∧
             (db_id Catalog.handle ∉ open_dbs w') ∧ stderr w' = stderr w.
Proof.
  cbv zeta.
  assert (writeDB Catalog.piped (Some Catalog.handle) Catalog.store_path
            StdoutWriter (world_of (OpenDB Catalog.piped (Catalog.start [])))
          = Ret None
              (world_of (writeDB Catalog.piped (Some Catalog.handle)
                           Catalog.store_path StdoutWriter
                           (world_of (OpenDB Catalog.piped
                                        (Catalog.start []))))))
    as H by (vm_compute; reflexivity).
  exact (conj H (writeDB_streams_the_store _ _ _ _ _ H)).
Defined.

Lemma writeDB_failure_witness :
  let E := Catalog.piped in
  let w := world_of (OpenDB E (Catalog.start_narrow [] 5)) in
  let w' := world_of (writeDB E (Some Catalog.handle) Catalog.store_path
                        StdoutWriter w) in
  writeDB E (Some Catalog.handle) Catalog.store_path StdoutWriter w
  = Ret (Some "writing db to stdout: short write") w' ∧
  (db_id Catalog.handle ∉ open_dbs w') ∧
  (stdout w' = stdout w ∨
   ∃ n content,
     stdout_room w = Some n ∧ fs w' !! Catalog.store_path = Some content ∧
     (n < length content)%nat ∧
     stdout w' = stdout w ++ take n content ∧
     "writing db to stdout: short write" = "writing db to stdout: short write").
Proof.
  cbv zeta.
  assert (writeDB Catalog.piped (Some Catalog.handle) Catalog.store_path
            StdoutWriter
            (world_of (OpenDB Catalog.piped (Catalog.start_narrow [] 5)))
          = Ret (Some "writing db to stdout: short write")
              (world_of (writeDB Catalog.piped (Some Catalog.handle)
                           Catalog.store_path StdoutWriter
                           (world_of (OpenDB Catalog.piped
                                        (Catalog.start_narrow [] 5))))))
    as H by (vm_compute; reflexivity).
  exact (conj H (writeDB_failure_writes_prefix _ _ _ _ _ _ H)).
Defined.

(** ** Acquire, continued *)

Section AcquireMore.
Context (E : Env).


Lemma reopened_subseteq (n : nat) (s t : gset nat) :
  t ⊆ {[ n ]} ∪ s → n ∉ t → t ⊆ s.
Proof.
  intros Hsub Hn x Hx. specialize (Hsub x Hx).
  apply elem_of_union in Hsub as [Hs|Hs]; [|exact Hs].
  apply elem_of_singleton in Hs. now subst.
Qed.

(** Every way [readDB] can end, as far as handles and output go. *)
Lemma readDB_frame (terminal : bool) (w : World) :
  ∃ r w', readDB E StdinReader terminal w = Ret r w' ∧
          stdout w' = stdout w ∧ stderr w' = stderr w ∧
          exec_log w' = exec_log w ∧
          (r.2 ≠ None → open_dbs w' ⊆ open_dbs w).
Proof.
  assert (∀ n (s : gset nat), ({[ n ]} ∪ s) ∖ {[ n ]} ⊆ s) as Hback.
  { intros n s. apply (reopened_subseteq n);
      [apply subseteq_difference_l; reflexivity|].
    apply not_elem_of_difference. right. now apply elem_of_singleton. }
  unfold_io. destruct (create_temp_err E) as [e|].
  { do 2 eexists. split; [reflexivity|]. auto. }
  cbn [String.eqb]. fold (tmp_name E).
  destruct (fs w !! tmp_name E) as [x|] eqn:Hfresh; repeat io_step.
  { do 2 eexists. split; [reflexivity|]. auto. }
  destruct terminal; repeat io_step;
    [|destruct (stdin_err w) as [e|]; repeat io_step;
      [do 2 eexists; split; [reflexivity|]; world_fields; auto|]];
    (destruct (sql_open_err E) as [e|]; repeat io_step;
     [do 2 eexists; split; [reflexivity|]; world_fields; auto|]);
    (destruct (eng_ping E _) as [[e|] b]; repeat io_step;
     [destruct (eng_close E b) as [ec bc]; repeat io_step|]);
    (do 2 eexists; split; [reflexivity|]; world_fields;
     repeat (split; [reflexivity|]); intros Hn;
     first [apply Hback | now destruct Hn]).
Qed.

(** X15: when [OpenDB] fails it leaves no handle open that was not open
    before (the handle it had opened is closed again), and it has written
    nothing to standard output or standard error. *)
Theorem OpenDB_failure_closes_handle (w w' : World) (db : option sqlDB)
    (p : string) (e : error) :
  OpenDB E w = Ret (db, p, Some e) w' →
  open_dbs w' ⊆ open_dbs w ∧ stdout w' = stdout w ∧ stderr w' = stderr w.
Proof.
  unfold OpenDB, bind.
  destruct (readDB_frame (isTerminal E os_Stdin) w)
    as ([[db0 p0] [e0|]] & w1 & Hr & Ho & He & Hl & Hd).
  - rewrite Hr. intros [= _ _ _ <-]. rewrite Ho, He.
    split; [apply Hd; discriminate | auto].
  - pose proof (readDB_cases E (isTerminal E os_Stdin) w) as Hc.
    destruct Hc as [(e1 & w2 & H2 & _) | (b0 & _ & _ & H2)];
      rewrite H2 in Hr; [discriminate Hr|].
    injection Hr as <- <- <-. rewrite H2.
    destruct (createSchema_cases E (new_handle E w)
                (acquired E (isTerminal E os_Stdin) b0 w))
      as ([e1|] & w2 & _ & _ & -> & _ & _ & _ & _ & Hd2 & _ & Ho2 & He2 & _);
      [|discriminate].
    destruct (db_Close_frame E (new_handle E w) w2)
      as (r1 & w3 & -> & Hcl & Hsub & Ho3 & _ & He3 & _).
    destruct (os_Remove_frame (tmp_name E) w3)
      as (r' & w4 & -> & _ & Hd4 & Ho4 & _ & He4 & _).
    intros [= _ _ _ <-].
    rewrite Ho4, He4, Hd4, Ho3, He3, Ho2, He2.
    split; [|split; unfold acquired; now destruct (isTerminal E os_Stdin)].
    rewrite Hd2 in Hsub.
    assert (open_dbs (acquired E (isTerminal E os_Stdin) b0 w)
            = {[ db_id (new_handle E w) ]} ∪ open_dbs w) as Ha
      by (unfold acquired; now destruct (isTerminal E os_Stdin)).
    rewrite Ha in Hsub. exact (reopened_subseteq _ _ _ Hsub Hcl).
Qed.

End AcquireMore.


Lemma OpenDB_failure_closes_handle_witness :
  let E := Catalog.unreachable in
  let w := Catalog.start [x53; x51] in
  let w' := world_of (OpenDB E w) in
  OpenDB E w
  = Ret (None, EmptyString, Some "pinging db: unable to open database file")
        w' ∧
  open_dbs w' ⊆ open_dbs w ∧ stdout w' = stdout w ∧ stderr w' = stderr w.
Proof.
  cbv zeta.
  assert (OpenDB Catalog.unreachable (Catalog.start [x53; x51])
          = Ret (None, EmptyString,
                 Some "pinging db: unable to open database file")
              (world_of (OpenDB Catalog.unreachable
                           (Catalog.start [x53; x51]))))
    as H by (vm_compute; reflexivity).
  exact (conj H (OpenDB_failure_closes_handle _ _ _ _ _ _ H)).
Defined.

(** ** Stages of a pipeline *)

Section StageFacts.
Context (E : Env).

(** One stage on pipes, step by step. *)
Lemma stage_run (w : World) (b0 b b3 : bytes) :
  isTerminal E os_Stdin = false →
  isTerminal E os_Stdout = false →
  os_cooperates E w →
  eng_ping E (stdin_data w) = (None, b0) →
  run_stmts E Schema.stmts b0 = Some b →
  eng_close E b = (None, b3) →
  ∃ db dbPath w1 w2,
    OpenDB E w = Ret (db, dbPath, None) w1 ∧
    OutputDB E db dbPath w1 = Ret None w2 ∧
    stdout w2 = stdout w ++ b3 ∧
    fs w2 = fs w.
Proof.
  intros Hin Hout (Hct & Hso & Hoo & Hfresh & Herr & Hroom) Hping Hrun Hclose.
  pose proof (OpenDB_ok E w b0 b Hct Hfresh) as Hopen.
  rewrite Hin in Hopen. specialize (Hopen (λ _, Herr) Hso Hping Hrun).
  set (d := new_handle E w) in *.
  set (w1 := after_exec d Schema.stmts b (acquired E false b0 w)) in *.
  assert (db_id d ∈ open_dbs w1) as Ho.
  { subst w1 d. unfold after_exec, acquired. world_fields.
    apply elem_of_union_l. now apply elem_of_singleton. }
  assert (fs w1 !! dsn d = Some b) as Hf.
  { subst w1. unfold after_exec. world_fields. apply lookup_insert_eq. }
  assert (∀ n, stdout_room w1 = Some n → (length b3 <= n)%nat) as Hr.
  { subst w1. unfold after_exec, acquired. world_fields. rewrite Hroom.
    discriminate. }
  destruct (OutputDB_piped_ok E d w1 b b3 Hout Ho Hf Hclose Hoo Hr)
    as (w2 & Hw2 & Hstd & Hfs).
  exists (Some d), (tmp_name E), w1, w2.
  split; [exact Hopen|]. split; [exact Hw2|]. split.
  - rewrite Hstd. subst w1. unfold after_exec, acquired. now world_fields.
  - rewrite Hfs. subst w1 d. unfold after_exec, acquired, new_handle.
    world_fields. rewrite !delete_insert_eq. now apply delete_id.
Qed.

(** X16: on pipes at both ends, when the operating system refuses nothing
    and the engine connects to the input, bootstraps it and closes,
    [OpenDB] followed by [OutputDB] both succeed, append to standard output
    exactly the store the engine then holds (the input with the schema
    bootstrapped), and leave the scratch directory as it was. *)
Theorem stage_emits_bootstrapped_input (w : World) (out : bytes) :
  isTerminal E os_Stdin = false →
  isTerminal E os_Stdout = false →
  os_cooperates E w →
  emitted E (stdin_data w) = Some out →
  ∃ db dbPath w1 w2,
    OpenDB E w = Ret (db, dbPath, None) w1 ∧
    OutputDB E db dbPath w1 = Ret None w2 ∧
    stdout w2 = stdout w ++ out ∧
    fs w2 = fs w.
Proof.
  intros Hin Hout Hos Hem. unfold emitted in Hem.
  destruct (eng_ping E (stdin_data w)) as [[e|] b0] eqn:Hping; [discriminate|].
  destruct (run_stmts E Schema.stmts b0) as [b|] eqn:Hrun; [|discriminate].
  destruct (eng_close E b) as [[e|] b3] eqn:Hclose; [discriminate|].
  injection Hem as <-. eapply stage_run; eassumption.
Qed.

(** X17: with an engine that honours [IF NOT EXISTS] and whose connect and
    close leave the bytes alone, on pipes at both ends and with an operating
    system that refuses nothing, what one stage emits passes through a
    further stage unchanged: fed the bytes a stage emitted for some input,
    and given that the engine connects to them, [OpenDB] followed by
    [OutputDB] both succeed and write exactly those bytes. *)
Theorem stage_output_passes_through (w : World) (input out : bytes) :
  honours_if_not_exists E →
  transparent E →
  isTerminal E os_Stdin = false →
  isTerminal E os_Stdout = false →
  os_cooperates E w →
  emitted E input = Some out →
  (eng_ping E out).1 = None →
  stdin_data w = out →
  ∃ db dbPath w1 w2,
    OpenDB E w = Ret (db, dbPath, None) w1 ∧
    OutputDB E db dbPath w1 = Ret None w2 ∧
    stdout w2 = stdout w ++ stdin_data w ∧
    fs w2 = fs w.
Proof.
  intros HE Htr Hin Hout Hos Hem Hconn Hdata.
  unfold emitted in Hem.
  destruct (eng_ping E input) as [[e|] b0]; [discriminate|].
  destruct (run_stmts E Schema.stmts b0) as [b|] eqn:Hrun; [|discriminate].
  destruct (eng_close E b) as [[e|] b3] eqn:Hclose; [discriminate|].
  injection Hem as ->.
  assert (out = b) as ->.
  { destruct (Htr b) as [_ Hc]. now rewrite Hclose in Hc. }
  assert (eng_ping E b = (None, b)) as Hping.
  { destruct (Htr b) as [Hp _]. destruct (eng_ping E b) as [e' b'].
    cbn in Hp, Hconn. now subst. }
  rewrite Hdata.
  apply (stage_run w b b b Hin Hout Hos).
  - rewrite Hdata. exact Hping.
  - exact (run_stmts_twice E HE _ _ _ stmts_guarded Hrun).
  - exact Hclose.
Qed.

End StageFacts.

Lemma stage_emits_witness :
  let E := Catalog.piped in
  let w := Catalog.start [] in
  ∃ db dbPath w1 w2,
    OpenDB E w = Ret (db, dbPath, None) w1 ∧
    OutputDB E db dbPath w1 = Ret None w2 ∧
    stdout w2 = stdout w ++ Catalog.with_schema ∧
    fs w2 = fs w.
Proof.
  cbv zeta.
  apply (stage_emits_bootstrapped_input Catalog.piped (Catalog.start [])
           Catalog.with_schema).
  - vm_compute. reflexivity.
  - vm_compute. reflexivity.
  - repeat (split; [vm_compute; reflexivity|]). vm_compute. reflexivity.
  - vm_compute. reflexivity.
Defined.

Lemma stage_output_passes_through_witness :
  let E := Catalog.piped in
  let w := Catalog.start Catalog.with_schema in
  emitted E [] = Some Catalog.with_schema ∧
  ∃ db dbPath w1 w2,
    OpenDB E w = Ret (db, dbPath, None) w1 ∧
    OutputDB E db dbPath w1 = Ret None w2 ∧
    stdout w2 = stdout w ++ stdin_data w ∧
    fs w2 = fs w.
Proof.
  cbv zeta.
  assert (emitted Catalog.piped [] = Some Catalog.with_schema) as Hem
    by (vm_compute; reflexivity).
  split; [exact Hem|].
  apply (stage_output_passes_through Catalog.piped
           (Catalog.start Catalog.with_schema) [] Catalog.with_schema).
  - apply catalog_honours.
  - intros b. split; reflexivity.
  - vm_compute. reflexivity.
  - vm_compute. reflexivity.
  - repeat (split; [vm_compute; reflexivity|]). vm_compute. reflexivity.
  - exact Hem.
  - vm_compute. reflexivity.
  - reflexivity.
Defined.
